(** * A shallow embedding of [blockchain.py]

    The development follows the [Blockchain] class of [src/blockchain.py]:
    the block and chain data model, the canonical block digest, the
    proof-of-work puzzle, chain validation, the peer registry and the
    longest-chain consensus rule.

    Python values are the values JSON can carry.  A [str] is a Rocq
    [string] whose characters stand for the code points U+0000..U+00FF; a
    finite [float] is carried as the text [float.__repr__] gives for it
    (the only thing the class ever does with a float is print or serialise
    it, apart from one addition that is reported as its own outcome). *)

From Stdlib Require Import ZArith Lia List Ascii String DecimalString.
From Stdlib Require OrderedTypeEx.
From stdpp Require Import base decidable option list gmap strings.

Import ListNotations.
Local Open Scope string_scope.
Local Open Scope Z_scope.

(** ** Bytes and text *)

Definition byte := Z.

Definition code (c : ascii) : Z := Z.of_N (N_of_ascii c).
Definition chr (n : Z) : ascii := ascii_of_N (Z.to_N n).

Fixpoint codes (s : string) : list Z :=
  match s with
  | EmptyString => []
  | String c s' => code c :: codes s'
  end.

(** [str.encode()]: UTF-8, here for code points below 256. *)
Definition utf8_char (n : Z) : list byte :=
  if n <? 128 then [n]
  else [Z.lor 192 (Z.shiftr n 6); Z.lor 128 (Z.land n 63)].

Definition str_encode (s : string) : list byte := flat_map utf8_char (codes s).

Definition hex_digit (n : Z) : ascii :=
  if n <? 10 then chr (48 + n) else chr (87 + n).

(** [n] written with [k] lower-case hexadecimal digits. *)
Fixpoint hex_fixed (k : nat) (n : Z) : string :=
  match k with
  | O => ""
  | S k' => hex_fixed k' (Z.shiftr n 4) +:+ String (hex_digit (Z.land n 15)) ""
  end.

(** [str(n)] for an [int]. *)
Definition str_int (n : Z) : string := NilZero.string_of_int (Z.to_int n).

Fixpoint concat_sep (sep : string) (l : list string) : string :=
  match l with
  | [] => ""
  | [x] => x
  | x :: l' => x +:+ sep +:+ concat_sep sep l'
  end.

(** [s.startswith(p)] *)
Definition startswith (s p : string) : bool := String.prefix p s.

(** [c in s] for a single character. *)
Fixpoint contains (c : ascii) (s : string) : bool :=
  match s with
  | EmptyString => false
  | String d s' => Ascii.eqb c d || contains c s'
  end.

(** ** SHA-256 (FIPS 180-4), as [hashlib.sha256(...).hexdigest()] *)

Module SHA256.

Definition mask32 : Z := 0xFFFFFFFF.
Definition add32 (x y : Z) : Z := Z.land (x + y) mask32.
Definition rotr (n x : Z) : Z :=
  Z.lor (Z.shiftr x n) (Z.land (Z.shiftl x (32 - n)) mask32).
Definition shr (n x : Z) : Z := Z.shiftr x n.
Definition not32 (x : Z) : Z := Z.lxor x mask32.

Definition Ch (x y z : Z) : Z := Z.lxor (Z.land x y) (Z.land (not32 x) z).
Definition Maj (x y z : Z) : Z :=
  Z.lxor (Z.lxor (Z.land x y) (Z.land x z)) (Z.land y z).
Definition Sigma0 (x : Z) : Z := Z.lxor (Z.lxor (rotr 2 x) (rotr 13 x)) (rotr 22 x).
Definition Sigma1 (x : Z) : Z := Z.lxor (Z.lxor (rotr 6 x) (rotr 11 x)) (rotr 25 x).
Definition sigma0 (x : Z) : Z := Z.lxor (Z.lxor (rotr 7 x) (rotr 18 x)) (shr 3 x).
Definition sigma1 (x : Z) : Z := Z.lxor (Z.lxor (rotr 17 x) (rotr 19 x)) (shr 10 x).

(** The round constants are the first 32 bits of the fractional parts of
    the cube roots of the first 64 primes, the initial hash value those of
    the square roots of the first 8. *)
Definition is_prime (n : Z) : bool :=
  forallb (fun d => negb (n mod d =? 0)) (map Z.of_nat (seq 2 (Z.to_nat n - 2))).

Definition primes : list Z := List.filter is_prime (map Z.of_nat (seq 2 310)).

(** The integer cube root of [x], built from bit [n - 1] downwards. *)
Fixpoint icbrt_bits (n : nat) (x r : Z) : Z :=
  match n with
  | O => r
  | S n' =>
      let c := r + Z.shiftl 1 (Z.of_nat n') in
      if c * c * c <=? x then icbrt_bits n' x c else icbrt_bits n' x r
  end.

Definition frac32_cbrt (p : Z) : Z := Z.land (icbrt_bits 36 (Z.shiftl p 96) 0) mask32.
Definition frac32_sqrt (p : Z) : Z := Z.land (Z.sqrt (Z.shiftl p 64)) mask32.

Definition K : list Z := Eval vm_compute in map frac32_cbrt primes.
Definition H0 : list Z := Eval vm_compute in map frac32_sqrt (firstn 8 primes).

(** Big-endian bytes of [n], [k] of them. *)
Fixpoint be_bytes (k : nat) (n : Z) : list byte :=
  match k with
  | O => []
  | S k' => be_bytes k' (Z.shiftr n 8) ++ [Z.land n 255]
  end.

Definition pad (msg : list byte) : list byte :=
  let len := Z.of_nat (length msg) in
  msg ++ [128] ++ repeat 0 (Z.to_nat ((55 - len) mod 64)) ++ be_bytes 8 (8 * len).

Fixpoint words (fuel : nat) (bs : list byte) : list Z :=
  match fuel, bs with
  | S f, a :: b :: c :: d :: bs' =>
      (Z.shiftl a 24 + Z.shiftl b 16 + Z.shiftl c 8 + d) :: words f bs'
  | _, _ => []
  end.

(** The message schedule, most recent word first. *)
Fixpoint schedule (n : nat) (rw : list Z) : list Z :=
  match n with
  | O => rw
  | S n' =>
      let w := add32 (add32 (sigma1 (nth 1 rw 0)) (nth 6 rw 0))
                     (add32 (sigma0 (nth 14 rw 0)) (nth 15 rw 0)) in
      schedule n' (w :: rw)
  end.

Record regs := Regs { ra : Z; rb : Z; rc : Z; rd : Z; re : Z; rf : Z; rg : Z; rh : Z }.

Definition round (r : regs) (kw : Z * Z) : regs :=
  let '(k, w) := kw in
  let t1 := add32 (add32 (add32 (rh r) (Sigma1 (re r))) (add32 (Ch (re r) (rf r) (rg r)) k)) w in
  let t2 := add32 (Sigma0 (ra r)) (Maj (ra r) (rb r) (rc r)) in
  Regs (add32 t1 t2) (ra r) (rb r) (rc r) (add32 (rd r) t1) (re r) (rf r) (rg r).

Definition to_regs (h : list Z) : regs :=
  Regs (nth 0 h 0) (nth 1 h 0) (nth 2 h 0) (nth 3 h 0)
       (nth 4 h 0) (nth 5 h 0) (nth 6 h 0) (nth 7 h 0).

Definition of_regs (r : regs) : list Z :=
  [ra r; rb r; rc r; rd r; re r; rf r; rg r; rh r].

Definition compress (h : list Z) (block : list Z) : list Z :=
  let w := rev (schedule 48 (rev block)) in
  let r := fold_left round (combine K w) (to_regs h) in
  map (fun p => add32 (fst p) (snd p)) (combine h (of_regs r)).

Fixpoint blocks (fuel : nat) (h : list Z) (ws : list Z) : list Z :=
  match fuel with
  | O => h
  | S f =>
      match ws with
      | [] => h
      | _ => blocks f (compress h (firstn 16 ws)) (skipn 16 ws)
      end
  end.

Definition digest (msg : list byte) : list Z :=
  let p := pad msg in
  let ws := words (length p) p in
  blocks (length ws) H0 ws.

Definition hexdigest (msg : list byte) : string :=
  fold_right (fun w s => hex_fixed 8 w +:+ s) "" (digest msg).

End SHA256.

Definition sha256_hexdigest (msg : list byte) : string := SHA256.hexdigest msg.

(** ** Python values *)

#[warnings="-register-all"]
Inductive json :=
  | JNull
  | JBool (b : bool)
  | JInt (n : Z)
  | JFloat (repr : string)
  | JStr (s : string)
  | JList (l : list json)
  | JDict (d : list (string * json)).

(** A [dict] with [str] keys is the list of its items in insertion order;
    keys are distinct in every dict the class builds. *)
Definition dict := list (string * json).

Inductive exn :=
  | KeyError
  | TypeError
  | IndexError
  | ValueError
  | AttributeError
  | Unmodelled.    (* not an exception of Python: arithmetic on a float *)

Inductive outcome (A : Type) :=
  | Return (a : A)
  | Raise (e : exn).
Arguments Return {A} a.
Arguments Raise {A} e.

#[global] Instance outcome_ret : MRet outcome := @Return.
#[global] Instance outcome_bind : MBind outcome := fun A B f m =>
  match m with
  | Return a => f a
  | Raise e => Raise e
  end.

Definition dquote : ascii := chr 34.
Definition squote : ascii := chr 39.
Definition backslash : ascii := chr 92.

(** *** [json.dumps(v, sort_keys=True)] *)

(** One character of a string literal with [ensure_ascii]. *)
Definition json_escape (c : ascii) : string :=
  let n := code c in
  if n =? 34 then String backslash (String dquote "")
  else if n =? 92 then String backslash (String backslash "")
  else if n =? 10 then String backslash "n"
  else if n =? 13 then String backslash "r"
  else if n =? 9 then String backslash "t"
  else if n =? 8 then String backslash "b"
  else if n =? 12 then String backslash "f"
  else if (32 <=? n) && (n <=? 126) then String c ""
  else String backslash "u" +:+ hex_fixed 4 n.

Fixpoint json_escape_all (s : string) : string :=
  match s with
  | EmptyString => ""
  | String c s' => json_escape c +:+ json_escape_all s'
  end.

Definition json_string (s : string) : string :=
  String dquote (json_escape_all s) +:+ String dquote "".

(** Stable insertion sort of rendered items by key, in code point order. *)
Fixpoint insert_item (x : string * string) (l : list (string * string))
  : list (string * string) :=
  match l with
  | [] => [x]
  | y :: l' =>
      match String.compare (fst x) (fst y) with
      | Gt => y :: insert_item x l'
      | _ => x :: y :: l'
      end
  end.

Definition sort_items (l : list (string * string)) : list (string * string) :=
  fold_right insert_item [] l.

Fixpoint dumps (v : json) : string :=
  match v with
  | JNull => "null"
  | JBool true => "true"
  | JBool false => "false"
  | JInt n => str_int n
  | JFloat r => r
  | JStr s => json_string s
  | JList l => "[" +:+ concat_sep ", " (map dumps l) +:+ "]"
  | JDict d =>
      let items := map (fun kv => match kv with (k, x) => (k, dumps x) end) d in
      "{" +:+ concat_sep ", "
                (map (fun kv => json_string (fst kv) +:+ ": " +:+ snd kv)
                     (sort_items items))
          +:+ "}"
  end.

(** *** [str(v)] and [repr(v)] *)

Definition printable (n : Z) : bool :=
  (32 <=? n) && negb ((127 <=? n) && (n <=? 160)) && negb (n =? 173).

Definition repr_char (quote c : ascii) : string :=
  let n := code c in
  if Ascii.eqb c quote || (n =? 92) then String backslash (String c "")
  else if n =? 9 then String backslash "t"
  else if n =? 10 then String backslash "n"
  else if n =? 13 then String backslash "r"
  else if printable n then String c ""
  else String backslash "x" +:+ hex_fixed 2 n.

Fixpoint repr_chars (quote : ascii) (s : string) : string :=
  match s with
  | EmptyString => ""
  | String c s' => repr_char quote c +:+ repr_chars quote s'
  end.

Definition repr_str (s : string) : string :=
  let quote := if contains squote s && negb (contains dquote s)
               then dquote else squote in
  String quote (repr_chars quote s) +:+ String quote "".

Fixpoint py_repr (v : json) : string :=
  match v with
  | JNull => "None"
  | JBool true => "True"
  | JBool false => "False"
  | JInt n => str_int n
  | JFloat r => r
  | JStr s => repr_str s
  | JList l => "[" +:+ concat_sep ", " (map py_repr l) +:+ "]"
  | JDict d =>
      "{" +:+ concat_sep ", "
                (map (fun kv => match kv with
                                | (k, x) => repr_str k +:+ ": " +:+ py_repr x
                                end) d)
          +:+ "}"
  end.

(** [str(v)], which is also what an f-string field [{v}] prints. *)
Definition py_str (v : json) : string :=
  match v with
  | JStr s => s
  | _ => py_repr v
  end.

(** Truth value of [v], as [if v:] and [v or w] test it. *)
Definition truthy (v : json) : bool :=
  match v with
  | JNull => false
  | JBool b => b
  | JInt n => negb (n =? 0)
  | JFloat r => negb (String.eqb r "0.0" || String.eqb r "-0.0")
  | JStr s => negb (String.eqb s "")
  | JList l => match l with [] => false | _ => true end
  | JDict d => match d with [] => false | _ => true end
  end.

(** [v == s] for a [str] s: only an equal [str] compares equal. *)
Definition eq_str (v : json) (s : string) : bool :=
  match v with
  | JStr t => String.eqb t s
  | _ => false
  end.

Fixpoint dict_get (k : string) (d : dict) : option json :=
  match d with
  | [] => None
  | (k', x) :: d' => if String.eqb k k' then Some x else dict_get k d'
  end.

(** [d[k] = x] *)
Fixpoint dict_set (k : string) (x : json) (d : dict) : dict :=
  match d with
  | [] => [(k, x)]
  | (k', y) :: d' =>
      if String.eqb k k' then (k, x) :: d' else (k', y) :: dict_set k x d'
  end.

(** [v[k]] for a [str] key [k]. *)
Definition getitem (v : json) (k : string) : outcome json :=
  match v with
  | JDict d =>
      match dict_get k d with
      | Some x => Return x
      | None => Raise KeyError
      end
  | _ => Raise TypeError
  end.

(** [v + 1] *)
Definition add_one (v : json) : outcome json :=
  match v with
  | JInt n => Return (JInt (n + 1))
  | JBool b => Return (JInt ((if b then 1 else 0) + 1))
  | JFloat _ => Raise Unmodelled
  | _ => Raise TypeError
  end.

(** ** [urllib.parse.urlparse(url).netloc] (CPython 3.11) *)

Definition scheme_char (c : ascii) : bool :=
  let n := code c in
  ((97 <=? n) && (n <=? 122)) || ((65 <=? n) && (n <=? 90))
  || ((48 <=? n) && (n <=? 57)) || (n =? 43) || (n =? 45) || (n =? 46).

Definition ascii_alpha (c : ascii) : bool :=
  let n := code c in
  ((97 <=? n) && (n <=? 122)) || ((65 <=? n) && (n <=? 90)).

(** [url.lstrip(_WHATWG_C0_CONTROL_OR_SPACE)] *)
Fixpoint lstrip_c0 (url : string) : string :=
  match url with
  | String c url' => if code c <=? 32 then lstrip_c0 url' else url
  | EmptyString => ""
  end.

(** Removal of the characters of [_UNSAFE_URL_BYTES_TO_REMOVE]. *)
Fixpoint remove_unsafe (url : string) : string :=
  match url with
  | EmptyString => ""
  | String c url' =>
      let n := code c in
      if (n =? 9) || (n =? 13) || (n =? 10) then remove_unsafe url'
      else String c (remove_unsafe url')
  end.

(** [url.partition(':')]: the text before the first colon and the text
    after it, when there is one. *)
Fixpoint split_colon (url : string) : option (string * string) :=
  match url with
  | EmptyString => None
  | String c url' =>
      if code c =? 58 then Some ("", url')
      else match split_colon url' with
           | Some (a, b) => Some (String c a, b)
           | None => None
           end
  end.

Fixpoint all_chars (p : ascii -> bool) (s : string) : bool :=
  match s with
  | EmptyString => true
  | String c s' => p c && all_chars p s'
  end.

(** The url once its scheme, if it has one, is split off. *)
Definition strip_scheme (url : string) : string :=
  match url, split_colon url with
  | String c _, Some ((String _ _) as scheme, rest) =>
      if ascii_alpha c && all_chars scheme_char scheme then rest else url
  | _, _ => url
  end.

(** [_splitnetloc(url, 0)[0]]: the text up to the first of [/], [?], [#]. *)
Fixpoint splitnetloc (url : string) : string :=
  match url with
  | EmptyString => ""
  | String c url' =>
      let n := code c in
      if (n =? 47) || (n =? 63) || (n =? 35) then "" else String c (splitnetloc url')
  end.

Section Urlparse.

(** [_check_bracketed_netloc], which rests on the [ipaddress] module: does
    it accept this netloc? *)
Variable bracketed_netloc_ok : string -> bool.

(** The [netloc] of [urlparse(url)], or the [ValueError] it raises.
    [_checknetloc] accepts every string of code points below 256. *)
Definition urlparse_netloc (url : string) : outcome string :=
  let url := remove_unsafe (lstrip_c0 url) in
  let url := strip_scheme url in
  match url with
  | String "/" (String "/" url') =>
      let netloc := splitnetloc url' in
      let lb := contains "[" netloc in
      let rb := contains "]" netloc in
      if (lb && negb rb) || (rb && negb lb) then Raise ValueError
      else if lb && rb && negb (bracketed_netloc_ok netloc) then Raise ValueError
      else Return netloc
  | _ => Return ""
  end.

End Urlparse.

(** ** The [Blockchain] class *)

Record Blockchain := mkBlockchain {
  chain : list json;
  current_transactions : list json;
  nodes : gset string;
  difficulty : string
}.

Definition set_chain (c : list json) (self : Blockchain) : Blockchain :=
  mkBlockchain c (current_transactions self) (nodes self) (difficulty self).
Definition set_current_transactions (t : list json) (self : Blockchain) : Blockchain :=
  mkBlockchain (chain self) t (nodes self) (difficulty self).
Definition set_nodes (n : gset string) (self : Blockchain) : Blockchain :=
  mkBlockchain (chain self) (current_transactions self) n (difficulty self).

Definition genesis_block : json :=
  JDict [ ("index", JInt 1);
          ("timestamp", JInt 0);
          ("transactions", JList []);
          ("proof", JInt 100);
          ("previous_hash", JStr "1") ].

Definition create_deterministic_genesis_block (self : Blockchain) : Blockchain :=
  set_chain (chain self ++ [genesis_block]) self.

(** [Blockchain()] *)
Definition __init__ : Blockchain :=
  let self := mkBlockchain [] [] ∅ "0000" in
  match chain self with
  | [] => create_deterministic_genesis_block self
  | _ => self
  end.

(** [self.chain[-1]] *)
Definition last_block (self : Blockchain) : outcome json :=
  match last (chain self) with
  | Some b => Return b
  | None => Raise IndexError
  end.

(** [Blockchain.hash(block)].  [block.copy()] exists for a dict and for a
    list; the copy is serialised as it is. *)
Definition hash (block : json) : outcome string :=
  match block with
  | JDict _ | JList _ =>
      let block_copy := block in
      let block_string := str_encode (dumps block_copy) in
      Return (sha256_hexdigest block_string)
  | _ => Raise AttributeError
  end.

(** [new_block(proof, previous_hash)]; [now] is what [time.time()] gives. *)
Definition new_block (now : string) (proof previous_hash : json) (self : Blockchain)
  : outcome json * Blockchain :=
  let calculated :=
    if truthy previous_hash then Return previous_hash
    else b ← last_block self; h ← hash b; Return (JStr h) in
  match calculated with
  | Raise e => (Raise e, self)
  | Return calculated_previous_hash =>
      let block :=
        JDict [ ("index", JInt (Z.of_nat (length (chain self)) + 1));
                ("timestamp", JFloat now);
                ("transactions", JList (current_transactions self));
                ("proof", proof);
                ("previous_hash", calculated_previous_hash) ] in
      let self := set_current_transactions [] self in
      let self := set_chain (chain self ++ [block]) self in
      (Return block, self)
  end.

Definition new_transaction (sender recipient amount : json) (self : Blockchain)
  : outcome json * Blockchain :=
  let self :=
    set_current_transactions
      (current_transactions self ++
         [JDict [("sender", sender); ("recipient", recipient); ("amount", amount)]])
      self in
  (b ← last_block self; i ← getitem b "index"; add_one i, self).

Definition valid_proof (self : Blockchain) (last_proof proof : json) : bool :=
  let guess := str_encode (py_str last_proof +:+ py_str proof) in
  let guess_hash := sha256_hexdigest guess in
  String.eqb (substring 0 (String.length (difficulty self)) guess_hash)
             (difficulty self).

(** The search loop of [proof_of_work], from candidate [proof] on; [fuel]
    bounds the number of candidates tried. *)
Fixpoint proof_of_work_from (fuel : nat) (self : Blockchain) (last_proof : json)
  (proof : Z) : option Z :=
  match fuel with
  | O => None
  | S fuel' =>
      if negb (valid_proof self last_proof (JInt proof))
      then proof_of_work_from fuel' self last_proof (proof + 1)
      else Some proof
  end.

Definition proof_of_work (fuel : nat) (self : Blockchain) (last_proof : json)
  : option Z :=
  proof_of_work_from fuel self last_proof 0.

Section RegisterNode.

Variable bracketed_netloc_ok : string -> bool.

Definition register_node (address : string) (self : Blockchain)
  : outcome unit * Blockchain :=
  let address :=
    if negb (startswith address "http://" || startswith address "https://")
    then "http://" +:+ address else address in
  match urlparse_netloc bracketed_netloc_ok address with
  | Raise e => (Raise e, self)
  | Return netloc =>
      if truthy (JStr netloc)
      then (Return tt, set_nodes ({[ netloc ]} ∪ nodes self) self)
      else (Raise ValueError, self)
  end.

End RegisterNode.

(** The [while] loop of [valid_chain]: [rest] is [chain[current_index:]].
    Every block is subscripted for the log lines before it is checked. *)
Fixpoint valid_chain_from (self : Blockchain) (last_block : json) (rest : list json)
  : outcome bool :=
  match rest with
  | [] => Return true
  | block :: rest' =>
      _ ← getitem block "index";
      previous_hash ← getitem block "previous_hash";
      calculated_previous_hash ← hash last_block;
      _ ← getitem last_block "index";
      if negb (eq_str previous_hash calculated_previous_hash) then Return false
      else
        last_proof ← getitem last_block "proof";
        proof ← getitem block "proof";
        if negb (valid_proof self last_proof proof) then Return false
        else valid_chain_from self block rest'
  end.

Definition valid_chain (self : Blockchain) (chain_ : list json) : outcome bool :=
  match chain_ with
  | [] => Return false
  | first :: rest =>
      mismatch ←
        match chain self with
        | [] => Return false
        | own :: _ =>
            h ← hash first; h' ← hash own; Return (negb (String.eqb h h'))
        end;
      if (mismatch : bool) then Return false
      else valid_chain_from self first rest
  end.

(** What [requests.get] and [response.json()] give for one peer. *)
Inductive fetched :=
  | FetchError
  | Response (status_code : Z) (length_ : Z) (chain_ : list json).

(** The [for] loop of [resolve_conflicts] over the peers in the order the
    set is iterated; an exception under the [try] skips the peer. *)
Fixpoint resolve_loop (get : string -> fetched) (self : Blockchain)
  (neighbours : list string) (max_length : Z) (new_chain : option (list json))
  : option (list json) :=
  match neighbours with
  | [] => new_chain
  | node :: neighbours' =>
      match get node with
      | Response 200 length_ chain_ =>
          if length_ >? max_length then
            match valid_chain self chain_ with
            | Return true => resolve_loop get self neighbours' length_ (Some chain_)
            | _ => resolve_loop get self neighbours' max_length new_chain
            end
          else resolve_loop get self neighbours' max_length new_chain
      | _ => resolve_loop get self neighbours' max_length new_chain
      end
  end.

Definition resolve_conflicts_in (neighbours : list string) (get : string -> fetched)
  (self : Blockchain) : bool * Blockchain :=
  let max_length := Z.of_nat (length (chain self)) in
  match resolve_loop get self neighbours max_length None with
  | Some ((_ :: _) as new_chain) => (true, set_chain new_chain self)
  | _ => (false, self)
  end.

(** [resolve_conflicts()], the peers taken in the order [elements] lists
    the set. *)
Definition resolve_conflicts (get : string -> fetched) (self : Blockchain)
  : bool * Blockchain :=
  resolve_conflicts_in (elements (nodes self)) get self.

(** ** [P2PNode.process_p2p_message]: what a message does to the node *)

(** A decoded message, by its [type]; sending and broadcasting are left
    out, they do not touch the node. *)
Inductive message :=
  | NEW_BLOCK (payload : json)
  | NEW_TRANSACTION (payload : json)
  | REQUEST_CHAIN
  | RESPOND_CHAIN (received_chain : list json)
  | UNKNOWN.

Definition process_p2p_message (get : string -> fetched) (msg : message)
  (self : Blockchain) : outcome unit * Blockchain :=
  match msg with
  | NEW_BLOCK payload =>
      match getitem payload "index" with
      | Raise e => (Raise e, self)
      | Return _ => (Return tt, snd (resolve_conflicts get self))
      end
  | NEW_TRANSACTION payload =>
      (Return tt,
       set_current_transactions (current_transactions self ++ [payload]) self)
  | REQUEST_CHAIN => (Return tt, self)
  | RESPOND_CHAIN received_chain =>
      if (length (chain self) <? length received_chain)%nat then
        match valid_chain self received_chain with
        | Return true => (Return tt, set_chain received_chain self)
        | Return false => (Return tt, self)
        | Raise e => (Raise e, self)
        end
      else (Return tt, self)
  | UNKNOWN => (Return tt, self)
  end.

(** ** [int(s)] and [s.split(':')] as [broadcast_message] uses them *)

(** The characters [int] skips around a number: the ASCII white space and,
    below 256, U+0085 and U+00A0. *)
Definition int_space (c : ascii) : bool :=
  let n := code c in
  ((9 <=? n) && (n <=? 13)) || (n =? 32) || (n =? 133) || (n =? 160).

Definition digit_value (c : ascii) : option Z :=
  let n := code c in
  if (48 <=? n) && (n <=? 57) then Some (n - 48) else None.

Fixpoint lstrip_space (s : string) : string :=
  match s with
  | String c s' => if int_space c then lstrip_space s' else s
  | EmptyString => ""
  end.

(** The digits after the first: a digit, or one underscore and a digit.
    Gives the value, the number of digits and the text left over. *)
Fixpoint int_digits (s : string) (acc count : Z) : option (Z * Z * string) :=
  match s with
  | EmptyString => Some (acc, count, "")
  | String c s' =>
      match digit_value c with
      | Some d => int_digits s' (10 * acc + d) (count + 1)
      | None =>
          if code c =? 95 then
            match s' with
            | String c' s'' =>
                match digit_value c' with
                | Some d => int_digits s'' (10 * acc + d) (count + 1)
                | None => None
                end
            | EmptyString => None
            end
          else Some (acc, count, s)
      end
  end.

(** [int(s)] in base 10, [None] for a [ValueError]; a number of more than
    4300 digits is refused (CPython 3.11). *)
Definition py_int (s : string) : option Z :=
  let s := lstrip_space s in
  let '(negative, s) :=
    match s with
    | String c s' =>
        if code c =? 45 then (true, s')
        else if code c =? 43 then (false, s')
        else (false, s)
    | EmptyString => (false, s)
    end in
  match s with
  | String c s' =>
      match digit_value c with
      | Some d =>
          match int_digits s' d 1 with
          | Some (value, count, rest) =>
              if all_chars int_space rest && (count <=? 4300)
              then Some (if negative then - value else value)
              else None
          | None => None
          end
      | None => None
      end
  | EmptyString => None
  end.

(** [host, port = address.split(':')]: the two parts when there is exactly
    one colon, [None] for the [ValueError] of the unpacking. *)
Definition split_host_port (address : string) : option (string * string) :=
  match split_colon address with
  | Some (host, port) => if contains ":" port then None else Some (host, port)
  | None => None
  end.

(** ** [P2PNode.broadcast_message]: the calls of [send_message] it makes *)

(** One call [send_message(host, port, message)]. *)
Definition send := (string * Z * json)%type.

Fixpoint broadcast_loop (message : json) (exclude_port : option Z)
  (addresses : list string) : list send :=
  match addresses with
  | [] => []
  | http_node_address :: addresses' =>
      match split_host_port http_node_address with
      | Some (host, http_port_str) =>
          match py_int http_port_str with
          | Some http_port =>
              let p2p_port := http_port + 1000 in
              if match exclude_port with
                 | Some e => p2p_port =? e
                 | None => false
                 end
              then broadcast_loop message exclude_port addresses'
              else (host, p2p_port, message)
                     :: broadcast_loop message exclude_port addresses'
          | None => broadcast_loop message exclude_port addresses'
          end
      | None => broadcast_loop message exclude_port addresses'
      end
  end.

Definition broadcast_message (message : json) (exclude_port : option Z)
  (self : Blockchain) : list send :=
  broadcast_loop message exclude_port (elements (nodes self)).

(** ** The routes *)

(** What a route leaves behind: the reply [(body, status)] or the exception
    that escapes it, the node, and the messages sent to peers. *)
Record served := mkServed {
  served_result : outcome (json * Z);
  served_node : Blockchain;
  served_sent : list send
}.

Definition failed (e : exn) (self : Blockchain) : served :=
  mkServed (Raise e) self [].

(** The broadcast at the end of a route; [p2p_node] is the port of the
    transport when there is one. *)
Definition route_broadcast (type : string) (payload : json) (p2p_node : option Z)
  (self : Blockchain) : list send :=
  match p2p_node with
  | Some port =>
      broadcast_message (JDict [("type", JStr type); ("payload", payload)])
        (Some port) self
  | None => []
  end.

(** [GET /mine]; [None] when the search has not ended within [fuel]. *)
Definition mine (fuel : nat) (now node_identifier : string) (p2p_node : option Z)
  (self : Blockchain) : option served :=
  match (b ← last_block self; p ← getitem b "proof"; Return (b, p)) with
  | Raise e => Some (failed e self)
  | Return (last_block, last_proof) =>
      match proof_of_work fuel self last_proof with
      | None => None
      | Some proof =>
          let '(r, self) :=
            new_transaction (JStr "0") (JStr node_identifier) (JInt 1) self in
          match (_ ← r; hash last_block) with
          | Raise e => Some (failed e self)
          | Return previous_hash =>
              let '(r, self) := new_block now (JInt proof) (JStr previous_hash) self in
              match (block ← r;
                     index ← getitem block "index";
                     transactions ← getitem block "transactions";
                     proof' ← getitem block "proof";
                     previous_hash' ← getitem block "previous_hash";
                     Return (block,
                             JDict [ ("message", JStr "New Block Forged");
                                     ("index", index);
                                     ("transactions", transactions);
                                     ("proof", proof');
                                     ("previous_hash", previous_hash') ])) with
              | Raise e => Some (failed e self)
              | Return (block, response) =>
                  Some (mkServed (Return (response, 200)) self
                          (route_broadcast "NEW_BLOCK" block p2p_node self))
              end
          end
      end
  end.

(** [p in s] for two strings. *)
Fixpoint substring_of (p s : string) : bool :=
  String.prefix p s ||
  match s with
  | String _ s' => substring_of p s'
  | EmptyString => false
  end.

(** [key in values] for a [str] key. *)
Definition py_in (key : string) (values : json) : outcome bool :=
  match values with
  | JDict d => Return (match dict_get key d with Some _ => true | None => false end)
  | JList l => Return (existsb (fun x => eq_str x key) l)
  | JStr s => Return (substring_of key s)
  | _ => Raise TypeError
  end.

(** [all(key in values for key in required)] *)
Fixpoint all_in (required : list string) (values : json) : outcome bool :=
  match required with
  | [] => Return true
  | key :: required' =>
      present ← py_in key values;
      if (present : bool) then all_in required' values else Return false
  end.

(** [POST /transactions/new] with the decoded body [values]. *)
Definition route_new_transaction (values : json) (p2p_node : option Z)
  (self : Blockchain) : served :=
  match all_in ["sender"; "recipient"; "amount"] values with
  | Raise e => failed e self
  | Return false => mkServed (Return (JStr "Missing values", 400)) self []
  | Return true =>
      match (sender ← getitem values "sender";
             recipient ← getitem values "recipient";
             amount ← getitem values "amount";
             Return (sender, recipient, amount)) with
      | Raise e => failed e self
      | Return (sender, recipient, amount) =>
          let transaction_data :=
            JDict [("sender", sender); ("recipient", recipient); ("amount", amount)] in
          let '(r, self) := new_transaction sender recipient amount self in
          match r with
          | Raise e => failed e self
          | Return index =>
              mkServed
                (Return (JDict [("message",
                                 JStr ("Transaction will be added to Block "
                                       +:+ py_str index))], 201))
                self
                (route_broadcast "NEW_TRANSACTION" transaction_data p2p_node self)
          end
      end
  end.

(** [GET /chain] *)
Definition full_chain (self : Blockchain) : json * Z :=
  (JDict [ ("chain", JList (chain self));
           ("length", JInt (Z.of_nat (length (chain self)))) ], 200).

(** What [resolve_conflicts] reads off the reply of a peer. *)
Definition fetch_reply (reply : json * Z) : fetched :=
  match getitem (fst reply) "length", getitem (fst reply) "chain" with
  | Return (JInt length_), Return (JList chain_) => Response (snd reply) length_ chain_
  | _, _ => FetchError
  end.

(** [for x in v]: the items a loop over [v] sees. *)
Definition py_iter (v : json) : outcome (list json) :=
  match v with
  | JList l => Return l
  | JDict d => Return (map (fun kv => JStr (fst kv)) d)
  | JStr s => Return (map (fun c => JStr (String c "")) (list_ascii_of_string s))
  | _ => Raise TypeError
  end.

Section RegisterNodes.

Variable bracketed_netloc_ok : string -> bool.

(** The loop of [register_nodes]: the first exception ends it. *)
Fixpoint register_each (addresses : list json) (self : Blockchain)
  : outcome unit * Blockchain :=
  match addresses with
  | [] => (Return tt, self)
  | JStr node_address :: addresses' =>
      match register_node bracketed_netloc_ok node_address self with
      | (Return _, self) => register_each addresses' self
      | (Raise e, self) => (Raise e, self)
      end
  | _ :: _ => (Raise AttributeError, self)
  end.

(** [POST /nodes/register] with the decoded body [values]. *)
Definition register_nodes (values : json) (self : Blockchain)
  : outcome (json * Z) * Blockchain :=
  match values with
  | JDict d =>
      match dict_get "nodes" d with
      | None | Some JNull =>
          (Return (JStr "Error: Please supply a valid list of nodes", 400), self)
      | Some nodes_ =>
          match py_iter nodes_ with
          | Raise e => (Raise e, self)
          | Return addresses =>
              match register_each addresses self with
              | (Raise e, self) => (Raise e, self)
              | (Return _, self) =>
                  (Return (JDict [ ("message", JStr "New nodes have been added");
                                   ("total_nodes",
                                    JList (map JStr (elements (nodes self)))) ],
                           201), self)
              end
          end
      end
  | _ => (Raise AttributeError, self)
  end.

End RegisterNodes.

(** [GET /nodes/resolve] *)
Definition consensus (get : string -> fetched) (self : Blockchain)
  : (json * Z) * Blockchain :=
  let '(replaced, self) := resolve_conflicts get self in
  if (replaced : bool) then
    ((JDict [ ("message", JStr "Our chain was replaced");
              ("new_chain", JList (chain self)) ], 200), self)
  else
    ((JDict [ ("message", JStr "Our chain is authoritative");
              ("chain", JList (chain self)) ], 200), self).

(** * Vocabulary of the statements *)

(** The puzzle in the words of the docstring: the SHA-256 digest of the
    two numbers written one after the other has the given leading text. *)
Definition solves (target : string) (last_proof : json) (p : Z) : Prop :=
  String.prefix target
    (sha256_hexdigest (str_encode (py_str last_proof +:+ str_int p))) = true.

(** [b] links to [a]: its [previous_hash] is the digest of [a]. *)
Definition links_to (a b : json) : Prop :=
  exists h, hash a = Return h /\ getitem b "previous_hash" = Return (JStr h).

(** The proof of [b] solves the puzzle set by the proof of [a]. *)
Definition proof_follows (self : Blockchain) (a b : json) : Prop :=
  exists p q, getitem a "proof" = Return p /\ getitem b "proof" = Return q /\
              valid_proof self p q = true.

(** One turn of the loop of [valid_chain]: the checks on [block] against
    its predecessor [last_block]. *)
Definition block_ok (self : Blockchain) (last_block block : json) : outcome bool :=
  _ ← getitem block "index";
  previous_hash ← getitem block "previous_hash";
  calculated_previous_hash ← hash last_block;
  _ ← getitem last_block "index";
  if negb (eq_str previous_hash calculated_previous_hash) then Return false
  else
    last_proof ← getitem last_block "proof";
    proof ← getitem block "proof";
    Return (valid_proof self last_proof proof).

(** The genesis test at the head of [valid_chain]. *)
Definition genesis_mismatch (self : Blockchain) (first : json) : outcome bool :=
  match chain self with
  | [] => Return false
  | own :: _ => h ← hash first; h' ← hash own; Return (negb (String.eqb h h'))
  end.

(** The dict [new_transaction] appends. *)
Definition transaction (sender recipient amount : json) : json :=
  JDict [("sender", sender); ("recipient", recipient); ("amount", amount)].

(** The last block carries the length of the chain as its index. *)
Definition well_indexed (self : Blockchain) : Prop :=
  exists b, last_block self = Return b /\
            getitem b "index" = Return (JInt (Z.of_nat (length (chain self)))).

(** The address [urlparse] is given. *)
Definition with_scheme (address : string) : string :=
  if negb (startswith address "http://" || startswith address "https://")
  then "http://" +:+ address else address.

(** * Sample chains and nodes *)

(** A chain a peer can serve: the genesis block, then two blocks whose
    links and proofs are right and whose index fields are 7 and 5. *)
Definition forked_second : dict :=
  [ ("index", JInt 7);
    ("timestamp", JFloat "1700000000.25");
    ("transactions", JList []);
    ("proof", JInt 35293);
    ("previous_hash",
     JStr "1eea62564c3792c0931dedc88a415bce77a46bedac09fed270a7f8accef22b10") ].

Definition forked_third : dict :=
  [ ("index", JInt 5);
    ("timestamp", JFloat "1700000001.5");
    ("transactions", JList []);
    ("proof", JInt 35089);
    ("previous_hash",
     JStr "24d63e3a4cc931b88b1a7f8997829fb4949882b603cc14b6016fc52b71fd55cf") ].

Definition forked_chain : list json :=
  [ genesis_block; JDict forked_second; JDict forked_third ].

(** The reward transaction [/mine] records for a node. *)
Definition reward (recipient : string) : json :=
  JDict [ ("sender", JStr "0"); ("recipient", JStr recipient); ("amount", JInt 1) ].

(** A node that has forged one block on top of the genesis block: the
    reward is recorded, then [new_block] is called with 35293, the proof
    [proof_of_work] finds for 100. *)
Definition mined : Blockchain :=
  let self := snd (new_transaction (JStr "0") (JStr "alice") (JInt 1) __init__) in
  snd (new_block "1700000000.25" (JInt 35293) JNull self).

(** * Vocabulary of the further properties *)

(** What the loop of [resolve_conflicts] makes of one answer: the reported
    length and the chain it takes over, if it does. *)
Definition accepted (self : Blockchain) (max_length : Z) (r : fetched)
  : option (Z * list json) :=
  match r with
  | Response status n c =>
      if (status =? 200) && (n >? max_length) then
        match valid_chain self c with
        | Return true => Some (n, c)
        | _ => None
        end
      else None
  | FetchError => None
  end.

(** A chain a registered peer serves with status 200 and that
    [valid_chain] accepts, under the length [n] the peer reports. *)
Definition offered (get : string -> fetched) (self : Blockchain)
  (neighbours : list string) (n : Z) (c : list json) : Prop :=
  exists node, node ∈ neighbours /\ get node = Response 200 n c /\
               valid_chain self c = Return true.

(** The network as a node sees it when its peers run this code: [peers]
    gives the node behind an address, if one answers. *)
Definition peer_network (peers : string -> option Blockchain) (node : string)
  : fetched :=
  match peers node with
  | Some peer => fetch_reply (full_chain peer)
  | None => FetchError
  end.


(** The block [mine] forges at time [now] with the proof it found, on top
    of a last block whose digest is [h]. *)
Definition forged (now : string) (proof : Z) (h : string) (self : Blockchain)
  (node_identifier : string) : json :=
  JDict [ ("index", JInt (Z.of_nat (length (chain self)) + 1));
          ("timestamp", JFloat now);
          ("transactions",
           JList (current_transactions self ++ [reward node_identifier]));
          ("proof", JInt proof);
          ("previous_hash", JStr h) ].

(** One request or message served: the node before and after. *)
Inductive interface_step (ok : string -> bool) : Blockchain -> Blockchain -> Prop :=
  | step_mine fuel now node_identifier p2p_node self r :
      mine fuel now node_identifier p2p_node self = Some r ->
      interface_step ok self (served_node r)
  | step_new_transaction values p2p_node self :
      interface_step ok self (served_node (route_new_transaction values p2p_node self))
  | step_register_nodes values self :
      interface_step ok self (snd (register_nodes ok values self))
  | step_register_node address self :
      interface_step ok self (snd (register_node ok address self))
  | step_consensus get self :
      interface_step ok self (snd (consensus get self))
  | step_message get msg self :
      interface_step ok self (snd (process_p2p_message get msg self)).

(** The states a node started by the constructor can be in. *)
Definition reachable (ok : string -> bool) (self : Blockchain) : Prop :=
  rtc (interface_step ok) __init__ self.


(** [a] is placed behind [b] by [insert_item]. *)
Definition behind (a b : string) : bool :=
  match String.compare a b with Gt => true | _ => false end.

(** The characters a stored address never holds. *)
Definition forbidden : list ascii := ["/"; "?"; "#"; chr 9; chr 10; chr 13]%char.

(** A stored address is not empty and holds no path, query or fragment
    delimiter and no tab or line break. *)
Definition clean (a : string) : Prop :=
  a <> "" /\ Forall (fun c => contains c a = false) forbidden.

(** All addresses of the registry are clean. *)
Definition registry_clean (self : Blockchain) : Prop :=
  forall a, a ∈ nodes self -> clean a.



(** * Properties *)

(** ** The digest function on the test vector of FIPS 180-4 *)

Example sha256_abc :
  sha256_hexdigest (str_encode "abc") =
    "ba7816bf8f01cfea414140de5dae2223b00361a396177a9cb410ff61f20015ad".
Proof. vm_compute. reflexivity. Qed.

Example dumps_sorts_keys :
  dumps (JDict [("b", JInt 1); ("a", JList [JNull; JBool true]); ("B", JFloat "0.5")]) =
    dumps (JDict [("B", JFloat "0.5"); ("a", JList [JNull; JBool true]); ("b", JInt 1)]).
Proof. reflexivity. Qed.

(** ** Fresh instances and the genesis block *)

(** Claim C4.  A fresh [Blockchain] holds a non-empty chain whose first
    block (index 1) is the fixed genesis block: index 1, timestamp 0, no
    transactions, proof 100, previous hash ['1'].  The constructor reads no
    clock and no other input, so the canonical digest of that block is one
    constant, the same for every fresh instance. *)
Theorem fresh_chain_starts_with_genesis :
  chain __init__ <> [] /\
  chain __init__ !! 0%nat = Some genesis_block /\
  last_block __init__ = Return genesis_block /\
  getitem genesis_block "index" = Return (JInt 1) /\
  getitem genesis_block "timestamp" = Return (JInt 0) /\
  getitem genesis_block "transactions" = Return (JList []) /\
  getitem genesis_block "proof" = Return (JInt 100) /\
  getitem genesis_block "previous_hash" = Return (JStr "1") /\
  (b ← last_block __init__; hash b) =
    Return "1eea62564c3792c0931dedc88a415bce77a46bedac09fed270a7f8accef22b10".
Proof. repeat split; try discriminate; vm_compute; reflexivity. Qed.

Lemma init_no_pending : current_transactions __init__ = [] /\ nodes __init__ = ∅.
Proof. split; reflexivity. Qed.

(** ** Proof of work *)

Lemma substring_is_prefix (p h : string) :
  String.eqb (substring 0 (String.length p) h) p = String.prefix p h.
Proof.
  revert h; induction p as [|a p IH]; intros h.
  - destruct h; reflexivity.
  - destruct h as [|b h]; [reflexivity|].
    cbn [String.length substring String.eqb String.prefix].
    destruct (ascii_dec a b) as [->|Hne].
    + rewrite Ascii.eqb_refl. apply IH.
    + apply Ascii.eqb_neq in Hne. rewrite Ascii.eqb_sym, Hne. reflexivity.
Qed.

Lemma valid_proof_solves self last_proof p :
  valid_proof self last_proof (JInt p) = true <-> solves (difficulty self) last_proof p.
Proof. unfold valid_proof, solves. rewrite substring_is_prefix. reflexivity. Qed.

Lemma proof_of_work_from_least fuel self last_proof start p :
  proof_of_work_from fuel self last_proof start = Some p ->
  start <= p /\
  valid_proof self last_proof (JInt p) = true /\
  forall q, start <= q < p -> valid_proof self last_proof (JInt q) = false.
Proof.
  revert start; induction fuel as [|fuel IH]; intros start; cbn [proof_of_work_from].
  - discriminate.
  - destruct (valid_proof self last_proof (JInt start)) eqn:Hv; cbn [negb].
    + intros [= <-]. repeat split; [lia | exact Hv | lia].
    + intros H. destruct (IH _ H) as (Hle & Hp & Hmin).
      repeat split; [lia | exact Hp |].
      intros q Hq. destruct (Z.eq_dec q start) as [->|Hne]; [exact Hv|].
      apply Hmin. lia.
Qed.

(** The search stops: a solution [q] is reached with [q + 1] candidates. *)
Lemma proof_of_work_from_finds self last_proof (n : nat) start :
  valid_proof self last_proof (JInt (start + Z.of_nat n)) = true ->
  exists p, proof_of_work_from (S n) self last_proof start = Some p.
Proof.
  revert start; induction n as [|n IH]; intros start Hv.
  - rewrite Z.add_0_r in Hv. cbn [proof_of_work_from]. rewrite Hv. eauto.
  - cbn [proof_of_work_from].
    destruct (valid_proof self last_proof (JInt start)); cbn [negb]; [eauto|].
    apply IH. rewrite <- Hv. f_equal. f_equal. lia.
Qed.

Lemma proof_of_work_finds self last_proof q :
  0 <= q -> valid_proof self last_proof (JInt q) = true ->
  exists p, proof_of_work (S (Z.to_nat q)) self last_proof = Some p /\ p <= q.
Proof.
  intros Hq Hv. unfold proof_of_work.
  destruct (proof_of_work_from_finds self last_proof (Z.to_nat q) 0) as [p Hp].
  { rewrite Z2Nat.id by lia. exact Hv. }
  exists p. split; [exact Hp|].
  destruct (proof_of_work_from_least _ _ _ _ _ Hp) as (_ & _ & Hmin).
  destruct (Z_le_gt_dec p q) as [|Hgt]; [assumption|].
  rewrite Hmin in Hv by lia. discriminate.
Qed.

(** Claim C5.  With the difficulty ['0000'] every instance carries, a
    value [p] returned by [proof_of_work(last_proof)] is the smallest
    non-negative integer for which the SHA-256 digest of [last_proof] and
    [p] written one after the other starts with four zeros, and
    [valid_proof(last_proof, p)] holds. *)
Theorem proof_of_work_returns_least_solution fuel self last_proof p :
  difficulty self = "0000" ->
  proof_of_work fuel self last_proof = Some p ->
  0 <= p /\
  solves "0000" last_proof p /\
  (forall q, 0 <= q < p -> ~ solves "0000" last_proof q) /\
  valid_proof self last_proof (JInt p) = true.
Proof.
  intros Hd Hp. unfold proof_of_work in Hp.
  destruct (proof_of_work_from_least _ _ _ _ _ Hp) as (Hle & Hv & Hmin).
  repeat split; [exact Hle | | | exact Hv].
  - rewrite <- Hd. apply valid_proof_solves, Hv.
  - intros q Hq Hs. rewrite <- Hd in Hs. apply valid_proof_solves in Hs.
    rewrite Hmin in Hs by exact Hq. discriminate.
Qed.

Lemma proof_of_work_returns_least_solution_witness :
  0 <= 4 /\
  solves "0000" (JInt 8848) 4 /\
  (forall q, 0 <= q < 4 -> ~ solves "0000" (JInt 8848) q) /\
  valid_proof __init__ (JInt 8848) (JInt 4) = true.
Proof.
  apply (proof_of_work_returns_least_solution 5 __init__ (JInt 8848) 4).
  - reflexivity.
  - vm_compute. reflexivity.
Defined.

(** Claim C10.  [valid_proof] sees its two arguments only through the text
    [str(last_proof) + str(proof)]: two pairs with the same text get the
    same answer. *)
Theorem valid_proof_depends_on_concatenation self a b c d :
  py_str a +:+ py_str b = py_str c +:+ py_str d ->
  valid_proof self a b = valid_proof self c d.
Proof. intros H. unfold valid_proof. rewrite H. reflexivity. Qed.

Lemma valid_proof_depends_on_concatenation_witness :
  valid_proof __init__ (JInt 1) (JInt 23) = valid_proof __init__ (JInt 12) (JInt 3).
Proof.
  apply (valid_proof_depends_on_concatenation __init__ (JInt 1) (JInt 23) (JInt 12) (JInt 3)).
  reflexivity.
Defined.

(** ** The canonical digest *)

(** Claim C2.  The comment in [hash] says the ['hash'] field must not be
    part of the data being hashed, but the copy is serialised with every
    field it has: the genesis block and the same block carrying its own
    digest in a ['hash'] field get different digests. *)
Theorem hash_digests_the_hash_field :
  let block :=
    [ ("index", JInt 1); ("timestamp", JInt 0); ("transactions", JList []);
      ("proof", JInt 100); ("previous_hash", JStr "1") ] in
  let stamped :=
    dict_set "hash"
      (JStr "1eea62564c3792c0931dedc88a415bce77a46bedac09fed270a7f8accef22b10")
      block in
  (forall k, k <> "hash" -> dict_get k stamped = dict_get k block) /\
  hash (JDict block) =
    Return "1eea62564c3792c0931dedc88a415bce77a46bedac09fed270a7f8accef22b10" /\
  hash (JDict stamped) =
    Return "08246d60482f0ff9c503966c090f27468be528365854a766378b1664bd7aecfe" /\
  hash (JDict stamped) <> hash (JDict block).
Proof.
  cbv zeta. split; [|split; [|split]].
  - intros k Hk. cbn [dict_set String.eqb Ascii.eqb Bool.eqb dict_get].
    repeat match goal with
           | |- context [String.eqb ?a ?b] =>
               let E := fresh in destruct (String.eqb a b) eqn:E; [reflexivity|]
           end.
    destruct (String.eqb k "hash") eqn:E; [|reflexivity].
    apply String.eqb_eq in E. contradiction.
  - vm_compute. reflexivity.
  - vm_compute. reflexivity.
  - vm_compute. discriminate.
Qed.

(** ** Dict and list facts *)

Lemma dict_get_set_eq k x d : dict_get k (dict_set k x d) = Some x.
Proof.
  induction d as [|[k' y] d IH]; cbn [dict_set dict_get].
  - rewrite String.eqb_refl. reflexivity.
  - destruct (String.eqb k k') eqn:E; cbn [dict_get].
    + rewrite String.eqb_refl. reflexivity.
    + rewrite E. exact IH.
Qed.

Lemma dict_get_set_ne k k' x d :
  k' <> k -> dict_get k' (dict_set k x d) = dict_get k' d.
Proof.
  intros Hne. induction d as [|[k0 y] d IH]; cbn [dict_set dict_get].
  - apply String.eqb_neq in Hne. rewrite Hne. reflexivity.
  - destruct (String.eqb k k0) eqn:E; cbn [dict_get].
    + apply String.eqb_eq in E. subst k0.
      apply String.eqb_neq in Hne. rewrite Hne. reflexivity.
    + destruct (String.eqb k' k0); [reflexivity | exact IH].
Qed.

Lemma getitem_set_eq k x d : getitem (JDict (dict_set k x d)) k = Return x.
Proof. cbn [getitem]. rewrite dict_get_set_eq. reflexivity. Qed.

Lemma getitem_set_ne k k' x d :
  k' <> k -> getitem (JDict (dict_set k x d)) k' = getitem (JDict d) k'.
Proof. intros H. cbn [getitem]. rewrite dict_get_set_ne by exact H. reflexivity. Qed.

(** ** Chain validation *)

(** Claim C9.  [valid_chain] reads the index fields for its log lines only:
    the chain [forked_chain] starts with the local genesis block, every
    block links to its predecessor and carries a valid proof, the index
    fields are 1, 7, 5, and [valid_chain] accepts it. *)
Theorem valid_chain_ignores_index :
  exists g b c,
    forked_chain = [g; b; c] /\
    hash g = (own ← last_block __init__; hash own) /\
    links_to g b /\ links_to b c /\
    proof_follows __init__ g b /\ proof_follows __init__ b c /\
    map (fun x => getitem x "index") forked_chain =
      [Return (JInt 1); Return (JInt 7); Return (JInt 5)] /\
    valid_chain __init__ forked_chain = Return true.
Proof.
  eexists _, _, _. split; [reflexivity|].
  split; [vm_compute; reflexivity|].
  split; [eexists; split; vm_compute; reflexivity|].
  split; [eexists; split; vm_compute; reflexivity|].
  split; [eexists _, _; repeat split; vm_compute; reflexivity|].
  split; [eexists _, _; repeat split; vm_compute; reflexivity|].
  split; vm_compute; reflexivity.
Qed.

Lemma valid_chain_from_cons self lb b rest :
  valid_chain_from self lb (b :: rest) =
    (ok ← block_ok self lb b;
     if (ok : bool) then valid_chain_from self b rest else Return false).
Proof.
  cbn [valid_chain_from]. unfold block_ok.
  destruct (getitem b "index"); cbn; [|reflexivity].
  destruct (getitem b "previous_hash"); cbn; [|reflexivity].
  destruct (hash lb); cbn; [|reflexivity].
  destruct (getitem lb "index"); cbn; [|reflexivity].
  destruct (eq_str _ _); cbn; [|reflexivity].
  destruct (getitem lb "proof"); cbn; [|reflexivity].
  destruct (getitem b "proof"); cbn; [|reflexivity].
  destruct (valid_proof _ _ _); reflexivity.
Qed.

Lemma last_cons_default {A} (l : list A) (x d d' : A) :
  List.last (x :: l) d = List.last (x :: l) d'.
Proof.
  revert x; induction l as [|y l IH]; intros x; [reflexivity|].
  change (List.last (y :: l) d = List.last (y :: l) d'). apply IH.
Qed.

Lemma valid_chain_from_app self lb l1 l2 :
  valid_chain_from self lb (l1 ++ l2) =
    (ok ← valid_chain_from self lb l1;
     if (ok : bool) then valid_chain_from self (List.last l1 lb) l2 else Return false).
Proof.
  revert lb; induction l1 as [|b l1 IH]; intros lb.
  - reflexivity.
  - rewrite <- app_comm_cons, !valid_chain_from_cons.
    destruct (block_ok self lb b) as [[|]|]; cbn; try reflexivity.
    rewrite IH. destruct l1 as [|b' l1]; [reflexivity|].
    rewrite (last_cons_default l1 b' lb b). reflexivity.
Qed.

Lemma valid_chain_from_app_true self lb l1 l2 :
  valid_chain_from self lb (l1 ++ l2) = Return true ->
  valid_chain_from self lb l1 = Return true /\
  valid_chain_from self (List.last l1 lb) l2 = Return true.
Proof.
  rewrite valid_chain_from_app.
  destruct (valid_chain_from self lb l1) as [[|]|]; cbn; intros H;
    try discriminate; split; [reflexivity | exact H].
Qed.

Lemma valid_chain_from_cons_true self lb b rest :
  valid_chain_from self lb (b :: rest) = Return true ->
  block_ok self lb b = Return true /\ valid_chain_from self b rest = Return true.
Proof.
  rewrite valid_chain_from_cons.
  destruct (block_ok self lb b) as [[|]|]; cbn; intros H;
    try discriminate; split; [reflexivity | exact H].
Qed.

(** What an accepted block and its predecessor look like. *)
Lemma block_ok_true self lb b :
  block_ok self lb b = Return true ->
  exists idx h lidx lp p,
    getitem b "index" = Return idx /\
    getitem b "previous_hash" = Return (JStr h) /\
    hash lb = Return h /\
    getitem lb "index" = Return lidx /\
    getitem lb "proof" = Return lp /\
    getitem b "proof" = Return p /\
    valid_proof self lp p = true.
Proof.
  unfold block_ok.
  destruct (getitem b "index") as [idx|]; cbn; [|discriminate].
  destruct (getitem b "previous_hash") as [ph|]; cbn; [|discriminate].
  destruct (hash lb) as [h|]; cbn; [|discriminate].
  destruct (getitem lb "index") as [lidx|]; cbn; [|discriminate].
  destruct (eq_str ph h) eqn:E; cbn; [|discriminate].
  destruct (getitem lb "proof") as [lp|]; cbn; [|discriminate].
  destruct (getitem b "proof") as [p|]; cbn; [|discriminate].
  intros [= Hv]. exists idx, h, lidx, lp, p.
  destruct ph; try discriminate. cbn in E. apply String.eqb_eq in E. subst.
  repeat split; assumption.
Qed.

Lemma block_ok_intro self lb b idx ph h lidx lp p :
  getitem b "index" = Return idx ->
  getitem b "previous_hash" = Return ph ->
  hash lb = Return h ->
  getitem lb "index" = Return lidx ->
  getitem lb "proof" = Return lp ->
  getitem b "proof" = Return p ->
  block_ok self lb b = Return (eq_str ph h && valid_proof self lp p).
Proof.
  intros H1 H2 H3 H4 H5 H6. unfold block_ok.
  rewrite H1, H2, H3, H4; cbn.
  destruct (eq_str ph h); cbn; [|reflexivity].
  rewrite H5, H6; reflexivity.
Qed.

Lemma getitem_set k k' x d :
  getitem (JDict (dict_set k x d)) k' =
    if String.eqb k' k then Return x else getitem (JDict d) k'.
Proof.
  destruct (String.eqb k' k) eqn:E.
  - apply String.eqb_eq in E. subst. apply getitem_set_eq.
  - apply String.eqb_neq in E. apply getitem_set_ne, E.
Qed.

Lemma getitem_set_returns k k' x d y :
  getitem (JDict d) k' = Return y ->
  exists z, getitem (JDict (dict_set k x d)) k' = Return z.
Proof.
  intros H. rewrite getitem_set. destruct (String.eqb k' k); eauto.
Qed.

Lemma hash_dict_returns d : exists h, hash (JDict d) = Return h.
Proof. eexists. reflexivity. Qed.

(** A block with one field overwritten still gets a verdict. *)
Lemma block_ok_set_returns self lb d k x :
  block_ok self lb (JDict d) = Return true ->
  exists r, block_ok self lb (JDict (dict_set k x d)) = Return r.
Proof.
  intros H. destruct (block_ok_true _ _ _ H)
    as (idx & h & lidx & lp & p & H1 & H2 & H3 & H4 & H5 & H6 & _).
  destruct (getitem_set_returns k _ x _ _ H1) as [idx' H1'].
  destruct (getitem_set_returns k _ x _ _ H2) as [ph' H2'].
  destruct (getitem_set_returns k _ x _ _ H6) as [p' H6'].
  eexists. eapply block_ok_intro; eassumption.
Qed.

(** The successor of a block whose digest has changed is rejected. *)
Lemma block_ok_after_tamper self d k x nb :
  block_ok self (JDict d) nb = Return true ->
  hash (JDict (dict_set k x d)) <> hash (JDict d) ->
  block_ok self (JDict (dict_set k x d)) nb = Return false.
Proof.
  intros H Hne. destruct (block_ok_true _ _ _ H)
    as (idx & h & lidx & lp & p & H1 & H2 & H3 & H4 & H5 & H6 & _).
  destruct (getitem_set_returns k _ x _ _ H4) as [lidx' H4'].
  destruct (getitem_set_returns k _ x _ _ H5) as [lp' H5'].
  destruct (hash_dict_returns (dict_set k x d)) as [h' H3'].
  rewrite (block_ok_intro _ _ _ _ _ _ _ _ _ H1 H2 H3' H4' H5' H6).
  cbn [eq_str]. destruct (String.eqb h h') eqn:E; [|reflexivity].
  apply String.eqb_eq in E. subst h'. congruence.
Qed.

Lemma valid_chain_cons self first rest :
  valid_chain self (first :: rest) =
    (mismatch ← genesis_mismatch self first;
     if (mismatch : bool) then Return false else valid_chain_from self first rest).
Proof. reflexivity. Qed.

Lemma valid_chain_cons_true self first rest :
  valid_chain self (first :: rest) = Return true ->
  genesis_mismatch self first = Return false /\
  valid_chain_from self first rest = Return true.
Proof.
  rewrite valid_chain_cons.
  destruct (genesis_mismatch self first) as [[|]|]; cbn; intros H;
    try discriminate; split; [reflexivity | exact H].
Qed.

Lemma valid_chain_nonempty self c : valid_chain self c = Return true -> c <> [].
Proof. destruct c; [discriminate | discriminate]. Qed.

(** Every non-empty prefix of an accepted chain is accepted. *)
Lemma valid_chain_prefix self c (n : nat) :
  valid_chain self c = Return true -> (0 < n)%nat ->
  valid_chain self (take n c) = Return true.
Proof.
  intros H Hn. destruct c as [|first rest]; [discriminate|].
  destruct n as [|n]; [lia|]. cbn [take firstn].
  apply valid_chain_cons_true in H as [Hg Hv].
  rewrite valid_chain_cons, Hg. cbn.
  rewrite <- (take_drop n rest) in Hv.
  apply valid_chain_from_app_true in Hv as [Hv _]. exact Hv.
Qed.

Lemma last_cons {A} (l : list A) (y d : A) : List.last (y :: l) d = List.last l y.
Proof. destruct l as [|z l]; [reflexivity|]. apply (last_cons_default l z d y). Qed.

(** The block before position [j + 1] is the last of the first [j + 1]. *)
Lemma lookup_cons_last_take {A} (rest : list A) (first : A) (j : nat) :
  (j <= length rest)%nat ->
  (first :: rest) !! j = Some (List.last (take j rest) first).
Proof.
  revert first rest; induction j as [|j IH]; intros first rest Hj.
  - reflexivity.
  - destruct rest as [|y rest]; [cbn in Hj; lia|].
    cbn [length] in Hj. cbn [take firstn]. rewrite last_cons.
    change ((y :: rest) !! j = Some (List.last (take j rest) y)).
    apply IH. lia.
Qed.

(** The verdict on a chain whose accepted part [pre] is followed by [b]. *)
Lemma valid_chain_from_middle self first pre b post :
  valid_chain_from self first pre = Return true ->
  valid_chain_from self first (pre ++ b :: post) =
    (ok ← block_ok self (List.last pre first) b;
     if (ok : bool) then valid_chain_from self b post else Return false).
Proof.
  intros H. rewrite valid_chain_from_app, H. cbn. apply valid_chain_from_cons.
Qed.

Lemma eq_str_other x h : x <> JStr h -> eq_str x h = false.
Proof.
  intros H. destruct x; try reflexivity. cbn.
  destruct (String.eqb s h) eqn:E; [|reflexivity].
  apply String.eqb_eq in E. congruence.
Qed.

Section Tampering.

Variables (self : Blockchain) (k : string) (x : json) (d : dict).

Local Abbreviation d' := (dict_set k x d).

(** A block whose [previous_hash] was overwritten is rejected. *)
Lemma block_ok_previous_hash_changed lb :
  block_ok self lb (JDict d) = Return true ->
  k = "previous_hash" ->
  getitem (JDict d) "previous_hash" <> Return x ->
  block_ok self lb (JDict d') = Return false.
Proof.
  intros H Hk Hx. destruct (block_ok_true _ _ _ H)
    as (idx & h & lidx & lp & p & H1 & H2 & H3 & H4 & H5 & H6 & _).
  rewrite (block_ok_intro self lb (JDict d') idx x h lidx lp p); try assumption.
  - rewrite eq_str_other; [reflexivity|]. congruence.
  - rewrite getitem_set_ne; [assumption | rewrite Hk; discriminate].
  - rewrite Hk. apply getitem_set_eq.
  - rewrite getitem_set_ne; [assumption | rewrite Hk; discriminate].
Qed.

(** A block whose [proof] was overwritten by a value that does not solve
    the puzzle of its predecessor is rejected. *)
Lemma block_ok_proof_changed lb lp :
  block_ok self lb (JDict d) = Return true ->
  k = "proof" ->
  getitem lb "proof" = Return lp ->
  valid_proof self lp x = false ->
  block_ok self lb (JDict d') = Return false.
Proof.
  intros H Hk Hlp Hx. destruct (block_ok_true _ _ _ H)
    as (idx & h & lidx & lp' & p & H1 & H2 & H3 & H4 & H5 & H6 & _).
  rewrite (block_ok_intro self lb (JDict d') idx (JStr h) h lidx lp x); try assumption.
  - rewrite Hx, andb_false_r. reflexivity.
  - rewrite getitem_set_ne; [assumption | rewrite Hk; discriminate].
  - rewrite getitem_set_ne; [assumption | rewrite Hk; discriminate].
  - rewrite Hk. apply getitem_set_eq.
Qed.

(** Behind a block whose digest has changed the chain is rejected. *)
Lemma valid_chain_from_after_tamper nb post :
  valid_chain_from self (JDict d) (nb :: post) = Return true ->
  hash (JDict d') <> hash (JDict d) ->
  valid_chain_from self (JDict d') (nb :: post) = Return false.
Proof.
  intros H Hne. apply valid_chain_from_cons_true in H as [H _].
  rewrite valid_chain_from_cons, (block_ok_after_tamper _ _ _ _ _ H Hne).
  reflexivity.
Qed.

Lemma genesis_mismatch_after_tamper :
  chain self <> [] ->
  genesis_mismatch self (JDict d) = Return false ->
  hash (JDict d') <> hash (JDict d) ->
  genesis_mismatch self (JDict d') = Return true.
Proof.
  unfold genesis_mismatch. destruct (chain self) as [|own l]; [congruence|].
  intros _ H Hne. destruct (hash_dict_returns d) as [h Hh].
  destruct (hash_dict_returns d') as [h2 Hh2].
  rewrite Hh in H. rewrite Hh2. cbn in *.
  destruct (hash own) as [h'|]; cbn in *; [|discriminate].
  injection H as H. apply negb_false_iff, String.eqb_eq in H. subst h'.
  destruct (String.eqb h2 h) eqn:E; [|reflexivity].
  apply String.eqb_eq in E. congruence.
Qed.

End Tampering.

Lemma genesis_mismatch_set_returns self d k x :
  genesis_mismatch self (JDict d) = Return false ->
  exists r, genesis_mismatch self (JDict (dict_set k x d)) = Return r.
Proof.
  unfold genesis_mismatch. destruct (chain self) as [|own l]; [eauto|].
  cbn. destruct (hash own); cbn; [eauto | discriminate].
Qed.

(** Claim C3, as the code has it.  In a chain [valid_chain] accepts, let
    one field [k] of the block at position [i] be overwritten by [x].
    The blocks before position [i] still form an accepted chain.  The
    changed chain is rejected when [k] is [previous_hash] of a block after
    the first and [x] differs from the old value; when [k] is [proof] and
    [x] does not solve the puzzle of the predecessor's proof; and, for any
    field, when the digest of the block changes and either a block
    follows it or it is the first block of a chain checked against a
    local genesis block. *)
Theorem tampering_is_detected self c (i : nat) d k x :
  valid_chain self c = Return true ->
  c !! i = Some (JDict d) ->
  let c' := <[i := JDict (dict_set k x d)]> c in
  (forall n : nat, (0 < n <= i)%nat -> valid_chain self (take n c') = Return true) /\
  (k = "previous_hash" -> (0 < i)%nat ->
   getitem (JDict d) "previous_hash" <> Return x ->
   valid_chain self c' = Return false) /\
  (k = "proof" ->
   forall (j : nat) prev lp,
     i = S j -> c !! j = Some prev -> getitem prev "proof" = Return lp ->
     valid_proof self lp x = false ->
     valid_chain self c' = Return false) /\
  (hash (JDict (dict_set k x d)) <> hash (JDict d) ->
   (S i < length c)%nat \/ (i = 0%nat /\ chain self <> []) ->
   valid_chain self c' = Return false).
Proof.
  intros Hv Hi c'. split.
  { intros n Hn. subst c'. rewrite take_insert_ge by lia.
    apply valid_chain_prefix; [exact Hv | lia]. }
  destruct c as [|first rest]; [discriminate|].
  apply valid_chain_cons_true in Hv as [Hg Hv].
  destruct i as [|j].
  - (* the first block *)
    cbn in Hi. injection Hi as ->. subst c'. cbn [insert list_insert].
    split; [intros _ H; lia|]. split; [intros _ j prev lp [=]|].
    intros Hne Hcase. rewrite valid_chain_cons.
    destruct Hcase as [Hlen | [_ Hown]].
    + destruct rest as [|nb post]; [cbn in Hlen; lia|].
      destruct (genesis_mismatch_set_returns self d k x Hg) as [[|] ->]; cbn;
        [reflexivity|].
      apply valid_chain_from_after_tamper; assumption.
    + rewrite (genesis_mismatch_after_tamper self k x d Hown Hg Hne). reflexivity.
  - (* a later block *)
    cbn in Hi.
    pose proof (lookup_lt_Some _ _ _ Hi) as Hj.
    pose proof (take_drop_middle rest j _ Hi) as Hsplit.
    assert (Hc' : c' = first :: take j rest ++
                         JDict (dict_set k x d) :: drop (S j) rest).
    { subst c'. cbn [insert list_insert]. f_equal.
      apply insert_take_drop. exact Hj. }
    rewrite <- Hsplit in Hv.
    destruct (valid_chain_from_app_true _ _ _ _ Hv) as [Hpre Hmid].
    destruct (valid_chain_from_cons_true _ _ _ _ Hmid) as [Hb Hpost].
    assert (Hverdict : valid_chain self c' =
              (ok ← block_ok self (List.last (take j rest) first)
                             (JDict (dict_set k x d));
               if (ok : bool)
               then valid_chain_from self (JDict (dict_set k x d)) (drop (S j) rest)
               else Return false)).
    { rewrite Hc', valid_chain_cons, Hg. cbn.
      apply valid_chain_from_middle. exact Hpre. }
    rewrite Hverdict. split; [|split].
    + intros Hk _ Hx.
      rewrite (block_ok_previous_hash_changed self k x d _ Hb Hk Hx). reflexivity.
    + intros Hk j' prev lp [= <-] Hprev Hlp Hx.
      assert (prev = List.last (take j rest) first) as ->.
      { rewrite lookup_cons_last_take in Hprev by lia. congruence. }
      rewrite (block_ok_proof_changed self k x d _ lp Hb Hk Hlp Hx). reflexivity.
    + intros Hne [Hlen | [[=] _]].
      destruct (drop (S j) rest) as [|nb post] eqn:Hpost'.
      { apply (f_equal length) in Hpost'. rewrite length_drop in Hpost'.
        cbn [length] in *. lia. }
      destruct (block_ok_set_returns self _ d k x Hb) as [[|] ->]; cbn;
        [|reflexivity].
      apply valid_chain_from_after_tamper; assumption.
Qed.

Lemma tampering_is_detected_witness :
  valid_chain __init__ forked_chain = Return true /\
  valid_chain __init__
    (<[1%nat := JDict (dict_set "transactions" (JList [reward "mallory"]) forked_second)]>
       forked_chain) = Return false.
Proof.
  split; [vm_compute; reflexivity|].
  refine (proj2 (proj2 (proj2
            (tampering_is_detected __init__ forked_chain 1 forked_second
               "transactions" (JList [reward "mallory"]) _ _))) _ _).
  - vm_compute. reflexivity.
  - reflexivity.
  - vm_compute. discriminate.
  - left. cbn. lia.
Defined.

(** The fields of the final block other than [previous_hash] and [proof]
    are covered by no check: overwriting one leaves the chain accepted. *)
Lemma final_block_fields_unprotected self pre d k x :
  valid_chain self (pre ++ [JDict d]) = Return true ->
  pre <> [] -> k <> "previous_hash" -> k <> "proof" ->
  valid_chain self (pre ++ [JDict (dict_set k x d)]) = Return true.
Proof.
  intros Hv Hpre Hk1 Hk2. destruct pre as [|first pre]; [congruence|].
  rewrite <- app_comm_cons in *.
  apply valid_chain_cons_true in Hv as [Hg Hv].
  rewrite valid_chain_cons, Hg. cbn.
  destruct (valid_chain_from_app_true _ _ _ _ Hv) as [Hp Hb].
  apply valid_chain_from_cons_true in Hb as [Hb _].
  rewrite valid_chain_from_middle by exact Hp.
  destruct (block_ok_true _ _ _ Hb)
    as (idx & h & lidx & lp & p & H1 & H2 & H3 & H4 & H5 & H6 & H7).
  destruct (getitem_set_returns k _ x _ _ H1) as [idx' H1'].
  rewrite (block_ok_intro self _ (JDict (dict_set k x d)) idx' (JStr h) h lidx lp p);
    try assumption.
  - cbn [eq_str]. rewrite String.eqb_refl, H7. reflexivity.
  - rewrite getitem_set_ne; [assumption | congruence].
  - rewrite getitem_set_ne; [assumption | congruence].
Qed.

(** Claim C3 fails as stated: the transactions of the final block of an
    honestly mined chain can be rewritten, here to pay the reward to
    someone else, and [valid_chain] still accepts the chain. *)
Lemma tampered_final_block_is_accepted :
  exists d,
    chain mined !! 1%nat = Some (JDict d) /\
    length (chain mined) = 2%nat /\
    valid_chain __init__ (chain mined) = Return true /\
    getitem (JDict d) "transactions" = Return (JList [reward "alice"]) /\
    valid_chain __init__
      (<[1%nat := JDict (dict_set "transactions" (JList [reward "mallory"]) d)]>
         (chain mined)) = Return true.
Proof.
  eexists. split; [vm_compute; reflexivity|].
  repeat split; vm_compute; reflexivity.
Qed.

(** Nor is a rewritten proof always caught: 88145 solves the puzzle of the
    genesis proof as 35293 does, and the final block may carry either. *)
Lemma reproved_final_block_is_accepted :
  exists d,
    chain mined !! 1%nat = Some (JDict d) /\
    getitem (JDict d) "proof" = Return (JInt 35293) /\
    valid_chain __init__
      (<[1%nat := JDict (dict_set "proof" (JInt 88145) d)]> (chain mined)) = Return true.
Proof.
  eexists. split; [vm_compute; reflexivity|].
  split; vm_compute; reflexivity.
Qed.

(** ** Consensus *)

(** What the loop of [resolve_conflicts] hands back: the candidate it
    started with, or a chain some peer served with status 200, a reported
    length above the starting length, and the approval of [valid_chain]. *)
Lemma resolve_loop_spec get self neighbours max_length new_chain :
  resolve_loop get self neighbours max_length new_chain = new_chain \/
  exists node n c,
    node ∈ neighbours /\ get node = Response 200 n c /\ max_length < n /\
    valid_chain self c = Return true /\
    resolve_loop get self neighbours max_length new_chain = Some c.
Proof.
  revert max_length new_chain.
  induction neighbours as [|node ns IH]; intros m nc; [left; reflexivity|].
  cbn [resolve_loop].
  assert (Hskip : resolve_loop get self ns m nc = nc \/
            exists node' n c,
              node' ∈ node :: ns /\ get node' = Response 200 n c /\ m < n /\
              valid_chain self c = Return true /\
              resolve_loop get self ns m nc = Some c).
  { destruct (IH m nc) as [H | (node' & n & c & Hin & H)]; [left; exact H|].
    right. exists node', n, c. split; [right; exact Hin | exact H]. }
  destruct (get node) as [|status n c] eqn:Hget; [exact Hskip|].
  destruct (Z.eq_dec status 200) as [->|Hs].
  2:{ destruct status as [|p|p]; try exact Hskip.
      repeat (destruct p as [p|p|]; try exact Hskip). congruence. }
  cbn. destruct (n >? m) eqn:Hgt; [|exact Hskip].
  destruct (valid_chain self c) as [[|]|] eqn:Hvc; try exact Hskip.
  right. destruct (IH n (Some c)) as [H | (node' & n' & c' & Hin & Hg & Hlt & H)].
  - exists node, n, c. repeat split; [left | exact Hget | lia | exact Hvc | exact H].
  - exists node', n', c'. split; [right; exact Hin|].
    split; [exact Hg|]. split; [lia | exact H].
Qed.

(** Without a replacement the node is left as it was; a replacement puts
    in a chain that a peer served under a reported length above the local
    one and that [valid_chain] accepted. *)
Lemma resolve_conflicts_in_spec neighbours get self :
  let r := resolve_conflicts_in neighbours get self in
  (fst r = false -> snd r = self) /\
  (fst r = true ->
   exists node n c,
     node ∈ neighbours /\ get node = Response 200 n c /\
     Z.of_nat (length (chain self)) < n /\
     valid_chain self c = Return true /\
     snd r = set_chain c self).
Proof.
  cbv zeta. unfold resolve_conflicts_in.
  destruct (resolve_loop_spec get self neighbours
              (Z.of_nat (length (chain self))) None)
    as [-> | (node & n & c & Hin & Hg & Hlt & Hv & ->)].
  - split; [reflexivity | discriminate].
  - destruct c as [|b c]; [discriminate|]. cbn [fst snd].
    split; [discriminate|]. intros _. exists node, n, (b :: c).
    repeat split; first [assumption | reflexivity].
Qed.

(** When every peer reports the true length of the chain it serves, the
    local chain never gets shorter, and a replacement is strictly longer. *)
Lemma resolve_conflicts_in_monotone neighbours get self :
  (forall node s n c, get node = Response s n c -> n = Z.of_nat (length c)) ->
  let r := resolve_conflicts_in neighbours get self in
  (length (chain self) <= length (chain (snd r)))%nat /\
  (fst r = true -> (length (chain self) < length (chain (snd r)))%nat).
Proof.
  intros Hhonest. cbv zeta.
  destruct (resolve_conflicts_in_spec neighbours get self) as [Hf Ht].
  destruct (fst (resolve_conflicts_in neighbours get self)) eqn:E.
  - destruct (Ht eq_refl) as (node & n & c & _ & Hg & Hlt & _ & ->).
    apply Hhonest in Hg. subst n. cbn [chain set_chain]. split; [lia|]. intros _. lia.
  - rewrite (Hf eq_refl). split; [lia | discriminate].
Qed.

(** The push path compares the chains themselves: a [RESPOND_CHAIN]
    message never shortens the local chain. *)
Lemma respond_chain_never_shortens get received_chain self :
  let self' := snd (process_p2p_message get (RESPOND_CHAIN received_chain) self) in
  (length (chain self) <= length (chain self'))%nat /\
  (chain self' = chain self \/
   chain self' = received_chain /\
   (length (chain self) < length received_chain)%nat /\
   valid_chain self received_chain = Return true).
Proof.
  cbv zeta. cbn [process_p2p_message].
  destruct (length (chain self) <? length received_chain)%nat eqn:E;
    [|cbn [snd]; split; [lia | left; reflexivity]].
  apply Nat.ltb_lt in E.
  destruct (valid_chain self received_chain) as [[|]|] eqn:Hv; cbn [snd];
    try (split; [lia | left; reflexivity]).
  cbn [chain set_chain]. split; [lia|]. right. auto.
Qed.

(** Claim C1.  The docstring promises the longest chain in the network and
    the comments speak of chains longer than ours, yet the loop compares
    the length the peer reports, not the length of the chain it serves
    (the [RESPOND_CHAIN] handler does compare [len(received_chain)]).  A
    node holding two blocks that is served the genesis block alone under
    a reported length of 3 adopts it: its chain shrinks from 2 blocks
    to 1 and the call returns [True]. *)
Theorem resolve_conflicts_adopts_shorter_chain (bracketed_netloc_ok : string -> bool) :
  let self := snd (register_node bracketed_netloc_ok "127.0.0.1:5001" mined) in
  let get := fun _ : string => Response 200 3 [genesis_block] in
  length (chain self) = 2%nat /\
  elements (nodes self) = ["127.0.0.1:5001"] /\
  valid_chain self [genesis_block] = Return true /\
  fst (resolve_conflicts get self) = true /\
  chain (snd (resolve_conflicts get self)) = [genesis_block] /\
  length (chain (snd (resolve_conflicts get self))) = 1%nat.
Proof. cbv zeta. repeat split; vm_compute; reflexivity. Qed.

(** ** Transactions and blocks *)



Lemma well_indexed_init : well_indexed __init__.
Proof. exists genesis_block. split; reflexivity. Qed.

Lemma well_indexed_new_transaction sender recipient amount self :
  well_indexed self -> well_indexed (snd (new_transaction sender recipient amount self)).
Proof. intros H. exact H. Qed.

Lemma well_indexed_new_block now proof previous_hash self block self' :
  new_block now proof previous_hash self = (Return block, self') ->
  well_indexed self'.
Proof.
  unfold new_block.
  destruct (if truthy previous_hash then _ else _) as [ph|e]; [|discriminate].
  intros [= <- <-]. eexists. unfold last_block. cbn [chain set_chain set_current_transactions].
  rewrite last_snoc. split; [reflexivity|].
  cbn. rewrite length_app. cbn [length]. do 2 f_equal. lia.
Qed.




(** What [new_block] does to the node. *)
Lemma new_block_spec now proof previous_hash self :
  match new_block now proof previous_hash self with
  | (Return block, self') =>
      chain self' = (chain self ++ [block])%list /\
      getitem block "transactions" = Return (JList (current_transactions self)) /\
      getitem block "index" = Return (JInt (Z.of_nat (length (chain self)) + 1)) /\
      getitem block "proof" = Return proof /\
      current_transactions self' = [] /\
      nodes self' = nodes self /\ difficulty self' = difficulty self
  | (Raise _, self') => self' = self
  end.
Proof.
  unfold new_block.
  destruct (if truthy previous_hash then _ else _) as [ph|e]; [|reflexivity].
  repeat split; reflexivity.
Qed.

(** [new_block] returns once the chain has a last block that is a dict,
    or when a previous hash is passed. *)
Lemma new_block_returns now proof previous_hash self :
  truthy previous_hash = true \/ (exists d, last (chain self) = Some (JDict d)) ->
  exists block, fst (new_block now proof previous_hash self) = Return block.
Proof.
  intros H. unfold new_block.
  destruct (truthy previous_hash); [eexists; reflexivity|].
  destruct H as [H | [d H]]; [discriminate|].
  unfold last_block. rewrite H. cbn. eexists. reflexivity.
Qed.

Lemma resolve_conflicts_in_keeps_pending neighbours get self :
  current_transactions (snd (resolve_conflicts_in neighbours get self)) =
    current_transactions self.
Proof.
  unfold resolve_conflicts_in.
  destruct (resolve_loop _ _ _ _ _) as [[|b c]|]; reflexivity.
Qed.

Lemma process_p2p_message_keeps_pending get msg self :
  exists received,
    current_transactions (snd (process_p2p_message get msg self)) =
      (current_transactions self ++ received)%list.
Proof.
  destruct msg as [payload|payload| |received_chain|]; cbn [process_p2p_message].
  - exists []. rewrite app_nil_r.
    destruct (getitem payload "index"); cbn [snd]; [|reflexivity].
    apply resolve_conflicts_in_keeps_pending.
  - exists [payload]. reflexivity.
  - exists []. rewrite app_nil_r. reflexivity.
  - exists []. rewrite app_nil_r.
    destruct (_ <? _)%nat; [|reflexivity].
    destruct (valid_chain self received_chain) as [[|]|]; reflexivity.
  - exists []. rewrite app_nil_r. reflexivity.
Qed.

Lemma register_node_keeps_chain_and_pending ok address self :
  chain (snd (register_node ok address self)) = chain self /\
  current_transactions (snd (register_node ok address self)) =
    current_transactions self.
Proof.
  unfold register_node.
  destruct (urlparse_netloc ok _) as [netloc|e]; [|split; reflexivity].
  destruct (truthy (JStr netloc)); split; reflexivity.
Qed.

(** Claim C6.  When [new_block] returns, the chain has grown by exactly
    the returned block, the transaction list of that block is the pending
    buffer as it was, in order, and the buffer is empty; when it raises,
    the node is unchanged.  It returns whenever the chain ends in a dict
    or a previous hash is passed.  Nothing else empties the buffer:
    [new_transaction] appends one transaction to it, [register_node] and
    [resolve_conflicts] leave it as it is, and a peer message leaves it
    as it is or appends to it. *)
Theorem pending_buffer_accounting now proof previous_hash self :
  match new_block now proof previous_hash self with
  | (Return block, self') =>
      chain self' = (chain self ++ [block])%list /\
      getitem block "transactions" = Return (JList (current_transactions self)) /\
      current_transactions self' = []
  | (Raise _, self') => self' = self
  end /\
  (truthy previous_hash = true \/ (exists d, last (chain self) = Some (JDict d)) ->
   exists block, fst (new_block now proof previous_hash self) = Return block) /\
  (forall sender recipient amount,
     current_transactions (snd (new_transaction sender recipient amount self)) =
       (current_transactions self ++ [transaction sender recipient amount])%list /\
     chain (snd (new_transaction sender recipient amount self)) = chain self) /\
  (forall ok address,
     current_transactions (snd (register_node ok address self)) =
       current_transactions self /\
     chain (snd (register_node ok address self)) = chain self) /\
  (forall neighbours get,
     current_transactions (snd (resolve_conflicts_in neighbours get self)) =
       current_transactions self) /\
  (forall get,
     current_transactions (snd (resolve_conflicts get self)) =
       current_transactions self) /\
  (forall get msg, exists received,
     current_transactions (snd (process_p2p_message get msg self)) =
       (current_transactions self ++ received)%list).
Proof.
  split; [|split; [|split; [|split; [|split; [|split]]]]].
  - pose proof (new_block_spec now proof previous_hash self) as H.
    destruct (new_block now proof previous_hash self) as [[block|e] self'];
      [|exact H].
    destruct H as (H1 & H2 & _ & _ & H3 & _). auto.
  - apply new_block_returns.
  - intros sender recipient amount. split; reflexivity.
  - intros ok address.
    destruct (register_node_keeps_chain_and_pending ok address self). auto.
  - intros neighbours get. apply resolve_conflicts_in_keeps_pending.
  - intros get. apply resolve_conflicts_in_keeps_pending.
  - intros get msg. apply process_p2p_message_keeps_pending.
Qed.

(** ** The peer registry *)

Lemma startswith_app (p s : string) : startswith (p +:+ s) p = true.
Proof.
  unfold startswith. induction p as [|a p IH].
  - destruct s; reflexivity.
  - change (String a p +:+ s) with (String a (p +:+ s)).
    cbn [String.prefix].
    destruct (ascii_dec a a); [exact IH | congruence].
Qed.

Lemma register_node_unfold ok address self :
  register_node ok address self =
    match urlparse_netloc ok (with_scheme address) with
    | Raise e => (Raise e, self)
    | Return netloc =>
        if negb (String.eqb netloc "")
        then (Return tt, set_nodes ({[ netloc ]} ∪ nodes self) self)
        else (Raise ValueError, self)
    end.
Proof. reflexivity. Qed.

(** A bare address and the same address behind [http://] are registered
    alike. *)
Lemma register_node_bare_or_qualified ok address self :
  startswith address "http://" = false ->
  startswith address "https://" = false ->
  register_node ok address self = register_node ok ("http://" +:+ address) self.
Proof.
  intros H1 H2. rewrite !register_node_unfold. unfold with_scheme.
  rewrite H1, H2, (startswith_app "http://" address). reflexivity.
Qed.

(** A raise leaves the node as it was. *)
Lemma register_node_raise_unchanged ok address self e :
  fst (register_node ok address self) = Raise e ->
  snd (register_node ok address self) = self.
Proof.
  rewrite register_node_unfold.
  destruct (urlparse_netloc ok _) as [netloc|e']; [|reflexivity].
  destruct (negb (String.eqb netloc "")); [discriminate | reflexivity].
Qed.

(** What is stored is the netloc of the address, whatever it looks like;
    the only addresses refused are those [urlparse] refuses and those
    with an empty netloc. *)
Lemma register_node_stores_netloc ok address self :
  match urlparse_netloc ok (with_scheme address) with
  | Return netloc =>
      if String.eqb netloc "" then
        register_node ok address self = (Raise ValueError, self)
      else
        fst (register_node ok address self) = Return tt /\
        nodes (snd (register_node ok address self)) = {[ netloc ]} ∪ nodes self
  | Raise e => register_node ok address self = (Raise e, self)
  end.
Proof.
  rewrite register_node_unfold.
  destruct (urlparse_netloc ok _) as [netloc|e]; [|reflexivity].
  destruct (String.eqb netloc ""); cbn; [reflexivity | split; reflexivity].
Qed.

(** Registering an address a second time changes nothing. *)
Lemma register_node_idempotent ok address self :
  snd (register_node ok address (snd (register_node ok address self))) =
    snd (register_node ok address self).
Proof.
  rewrite !register_node_unfold.
  destruct (urlparse_netloc ok _) as [netloc|e]; cbn [snd]; [|reflexivity].
  destruct (negb (String.eqb netloc "")); cbn [snd]; [|reflexivity].
  unfold set_nodes; cbn [chain current_transactions nodes difficulty].
  f_equal. rewrite (assoc_L (∪)), (union_idemp_L {[ netloc ]}). reflexivity.
Qed.

(** Claim C8.  The docstring says the address is stored as ['host:port']
    and the error message asks for host and port, but the only test is
    that the netloc is not empty: a bare host name without a port is
    accepted and stored as it is, and no error is raised. *)
Theorem register_node_accepts_host_without_port (bracketed_netloc_ok : string -> bool) :
  fst (register_node bracketed_netloc_ok "localhost" __init__) = Return tt /\
  nodes (snd (register_node bracketed_netloc_ok "localhost" __init__)) = {[ "localhost" ]} /\
  contains ":" "localhost" = false.
Proof.
  repeat split; vm_compute; reflexivity.
Qed.

(** An upper-case scheme is not recognised either: the node stores the
    text ['HTTP:'] for the address ['HTTP://192.168.0.5:5000']. *)
Lemma register_node_upper_case_scheme (ok : string -> bool) :
  fst (register_node ok "HTTP://192.168.0.5:5000" __init__) = Return tt /\
  elements (nodes (snd (register_node ok "HTTP://192.168.0.5:5000" __init__))) = ["HTTP:"].
Proof. split; vm_compute; reflexivity. Qed.

(** * Further properties *)

(** ** The longest-chain rule *)

Lemma resolve_loop_cons get self node ns m nc :
  resolve_loop get self (node :: ns) m nc =
    match accepted self m (get node) with
    | Some (n, c) => resolve_loop get self ns n (Some c)
    | None => resolve_loop get self ns m nc
    end.
Proof.
  cbn [resolve_loop]. unfold accepted.
  destruct (get node) as [|status n c]; [reflexivity|].
  destruct (Z.eqb_spec status 200) as [->|Hs].
  - cbn. destruct (n >? m); [|reflexivity].
    destruct (valid_chain self c) as [[|]|]; reflexivity.
  - cbn. destruct status as [|p|p]; try reflexivity.
    repeat (destruct p as [p|p|]; try reflexivity). congruence.
Qed.

Lemma accepted_Some self m r n c :
  accepted self m r = Some (n, c) <->
  r = Response 200 n c /\ m < n /\ valid_chain self c = Return true.
Proof.
  unfold accepted. destruct r as [|status n' c']; [split; [discriminate | intros [[=] _]]|].
  destruct (Z.eqb_spec status 200) as [->|Hs]; cbn.
  - destruct (Z.gtb_spec n' m) as [Hgt|Hle].
    + destruct (valid_chain self c') as [[|]|] eqn:Hv; split;
        try discriminate; try (intros [[= -> ->] [_ H]]; congruence).
      intros [= -> ->]. repeat split; [lia | exact Hv].
    + split; [discriminate|]. intros [[= -> ->] [H _]]. lia.
  - split; [discriminate|]. intros [[= -> -> ->] _]. congruence.
Qed.

(** The loop keeps its candidate when no offer has a reported length above
    the bound it started with, and ends with an offer of greatest reported
    length otherwise. *)
Lemma resolve_loop_greatest get self neighbours max_length new_chain :
  (resolve_loop get self neighbours max_length new_chain = new_chain /\
   forall n c, offered get self neighbours n c -> n <= max_length) \/
  (exists n c,
     offered get self neighbours n c /\ max_length < n /\
     resolve_loop get self neighbours max_length new_chain = Some c /\
     forall n' c', offered get self neighbours n' c' -> n' <= n).
Proof.
  revert max_length new_chain.
  induction neighbours as [|node ns IH]; intros m nc.
  { left. split; [reflexivity|]. intros n c (node & Hin & _).
    apply elem_of_nil in Hin. contradiction. }
  rewrite resolve_loop_cons.
  destruct (accepted self m (get node)) as [[n c]|] eqn:Ha.
  - apply accepted_Some in Ha as (Hg & Hlt & Hv).
    assert (Hhead : forall n' c', offered get self (node :: ns) n' c' ->
              offered get self ns n' c' \/ n' = n).
    { intros n' c' (node' & Hin & Hg' & Hv').
      apply elem_of_cons in Hin as [->|Hin].
      - right. congruence.
      - left. exists node'. auto. }
    right. destruct (IH n (Some c)) as [[-> Hall] | (n2 & c2 & Ho & Hlt2 & -> & Hall)].
    + exists n, c. split; [exists node; split; [left|]; auto|].
      split; [exact Hlt|]. split; [reflexivity|].
      intros n' c' Ho'. destruct (Hhead _ _ Ho') as [H| ->]; [apply (Hall _ _ H) | lia].
    + exists n2, c2. destruct Ho as (node2 & Hin2 & Hg2 & Hv2).
      split; [exists node2; split; [right|]; auto|].
      split; [lia|]. split; [reflexivity|].
      intros n' c' Ho'. destruct (Hhead _ _ Ho') as [H| ->]; [apply (Hall _ _ H) | lia].
  - assert (Hhead : forall n' c', offered get self (node :: ns) n' c' ->
              offered get self ns n' c' \/ n' <= m).
    { intros n' c' (node' & Hin & Hg' & Hv').
      apply elem_of_cons in Hin as [->|Hin].
      - right. destruct (Z_le_gt_dec n' m) as [|Hgt]; [assumption|].
        assert (accepted self m (get node) = Some (n', c')) as H
          by (apply accepted_Some; repeat split; [assumption | lia | assumption]).
        congruence.
      - left. exists node'. auto. }
    destruct (IH m nc) as [[-> Hall] | (n2 & c2 & Ho & Hlt2 & -> & Hall)].
    + left. split; [reflexivity|].
      intros n' c' Ho'. destruct (Hhead _ _ Ho') as [H|H]; [apply (Hall _ _ H) | exact H].
    + right. exists n2, c2. destruct Ho as (node2 & Hin2 & Hg2 & Hv2).
      split; [exists node2; split; [right|]; auto|].
      split; [exact Hlt2|]. split; [reflexivity|].
      intros n' c' Ho'. destruct (Hhead _ _ Ho') as [H|H]; [apply (Hall _ _ H) | lia].
Qed.

(** Property X1.  [resolve_conflicts] applies the longest-chain rule to
    the lengths the peers report: it returns [False] and leaves the node
    as it is exactly when no registered peer serves a chain that
    [valid_chain] accepts under a reported length above the local length;
    otherwise it returns [True] and puts in such a chain, and no accepted
    chain was offered under a greater reported length. *)
Theorem resolve_conflicts_takes_greatest_offer get self :
  let local := Z.of_nat (length (chain self)) in
  let neighbours := elements (nodes self) in
  (fst (resolve_conflicts get self) = false /\
   snd (resolve_conflicts get self) = self /\
   forall n c, offered get self neighbours n c -> n <= local) \/
  (exists n c,
     fst (resolve_conflicts get self) = true /\
     snd (resolve_conflicts get self) = set_chain c self /\
     offered get self neighbours n c /\ local < n /\
     forall n' c', offered get self neighbours n' c' -> n' <= n).
Proof.
  cbv zeta. unfold resolve_conflicts, resolve_conflicts_in.
  destruct (resolve_loop_greatest get self (elements (nodes self))
              (Z.of_nat (length (chain self))) None)
    as [[-> Hall] | (n & c & Ho & Hlt & -> & Hall)].
  - left. auto.
  - right. exists n, c.
    destruct c as [|b c].
    { destruct Ho as (_ & _ & _ & Hv). discriminate. }
    cbn [fst snd]. auto.
Qed.

Lemma peer_network_response peers node s n c :
  peer_network peers node = Response s n c ->
  exists peer, peers node = Some peer /\ s = 200 /\
               n = Z.of_nat (length (chain peer)) /\ c = chain peer.
Proof.
  unfold peer_network. destruct (peers node) as [peer|]; [|discriminate].
  cbn. intros [= <- <- <-]. eauto.
Qed.

Lemma valid_chain_from_set_chain c self lb rest :
  valid_chain_from (set_chain c self) lb rest = valid_chain_from self lb rest.
Proof.
  revert lb; induction rest as [|b rest IH]; intros lb; [reflexivity|].
  rewrite !valid_chain_from_cons. unfold block_ok.
  change (valid_proof (set_chain c self)) with (valid_proof self).
  destruct (getitem b "index"); cbn; [|reflexivity].
  destruct (getitem b "previous_hash"); cbn; [|reflexivity].
  destruct (hash lb); cbn; [|reflexivity].
  destruct (getitem lb "index"); cbn; [|reflexivity].
  destruct (negb _); cbn; [reflexivity|].
  destruct (getitem lb "proof"); cbn; [|reflexivity].
  destruct (getitem b "proof"); cbn; [|reflexivity].
  destruct (valid_proof self _ _); [apply IH | reflexivity].
Qed.

Lemma genesis_mismatch_false self first :
  genesis_mismatch self first = Return false ->
  chain self = [] \/
  exists own l h, chain self = own :: l /\ hash first = Return h /\ hash own = Return h.
Proof.
  unfold genesis_mismatch. destruct (chain self) as [|own l];
    [intros _; left; reflexivity|].
  destruct (hash first) as [h|] eqn:Hf; cbn; [|discriminate].
  destruct (hash own) as [h'|] eqn:Ho; cbn; [|discriminate].
  intros [= H]. apply negb_false_iff, String.eqb_eq in H. subst h'.
  right. exists own, l, h. repeat split; assumption || reflexivity.
Qed.

(** A chain accepted after an adoption was acceptable before it. *)
Lemma valid_chain_after_adoption self c c' :
  valid_chain self c = Return true ->
  valid_chain (set_chain c self) c' = Return true ->
  valid_chain self c' = Return true.
Proof.
  intros Hc Hc'. destruct c as [|first rest]; [discriminate|].
  destruct c' as [|f' r']; [discriminate|].
  apply valid_chain_cons_true in Hc as [Hg _].
  apply valid_chain_cons_true in Hc' as [Hg' Hv'].
  rewrite valid_chain_from_set_chain in Hv'.
  rewrite valid_chain_cons.
  destruct (genesis_mismatch_false _ _ Hg) as [Hnil | (own & l & h & Hown & Hf & Ho)].
  - unfold genesis_mismatch. rewrite Hnil. exact Hv'.
  - destruct (genesis_mismatch_false _ _ Hg')
      as [Hnil | (own' & l' & h' & Hown' & Hf' & Ho')]; [discriminate|].
    cbn [chain set_chain] in Hown'. injection Hown' as <- <-.
    unfold genesis_mismatch. rewrite Hown, Hf', Ho. cbn.
    assert (h' = h) as -> by congruence.
    rewrite String.eqb_refl. exact Hv'.
Qed.

Lemma resolve_conflicts_in_adopts neighbours get self c :
  resolve_loop get self neighbours (Z.of_nat (length (chain self))) None = Some c ->
  valid_chain self c = Return true ->
  resolve_conflicts_in neighbours get self = (true, set_chain c self).
Proof.
  intros Hr Hv. unfold resolve_conflicts_in. rewrite Hr.
  destruct c; [discriminate | reflexivity].
Qed.

(** Property X2.  Among nodes that run this code, where every peer serves
    its chain with its true length, [resolve_conflicts] never shortens the
    local chain: it either changes nothing, or adopts the chain of a
    registered peer that is strictly longer than the local one, is
    accepted by [valid_chain], and is at least as long as the chain of
    every other registered peer that [valid_chain] accepts. *)
Theorem resolve_conflicts_among_peers peers self :
  let r := resolve_conflicts (peer_network peers) self in
  (fst r = false /\ snd r = self) \/
  (exists node peer,
     fst r = true /\ snd r = set_chain (chain peer) self /\
     node ∈ nodes self /\ peers node = Some peer /\
     valid_chain self (chain peer) = Return true /\
     (length (chain self) < length (chain peer))%nat /\
     forall node' peer',
       node' ∈ nodes self -> peers node' = Some peer' ->
       valid_chain self (chain peer') = Return true ->
       (length (chain peer') <= length (chain peer))%nat).
Proof.
  cbv zeta. unfold resolve_conflicts.
  destruct (resolve_loop_greatest (peer_network peers) self (elements (nodes self))
              (Z.of_nat (length (chain self))) None)
    as [[Hr _] | (n & c & (node & Hin & Hg & Hv) & Hlt & Hr & Hall)].
  - left. unfold resolve_conflicts_in. rewrite Hr. auto.
  - right. destruct (peer_network_response _ _ _ _ _ Hg) as (peer & Hp & _ & -> & ->).
    exists node, peer. apply elem_of_elements in Hin.
    rewrite (resolve_conflicts_in_adopts _ _ _ _ Hr Hv). cbn [fst snd].
    split; [reflexivity|]. split; [reflexivity|].
    split; [exact Hin|]. split; [exact Hp|]. split; [exact Hv|]. split; [lia|].
    intros node' peer' Hin' Hp' Hv'.
    assert (Z.of_nat (length (chain peer')) <= Z.of_nat (length (chain peer))); [|lia].
    apply (Hall _ (chain peer')). exists node'.
    split; [apply elem_of_elements; exact Hin'|]. split; [|exact Hv'].
    unfold peer_network. rewrite Hp'. reflexivity.
Qed.

(** Property X3.  Among nodes that run this code the rule settles: once
    [resolve_conflicts] has run, running it again against the same peers
    changes nothing and returns [False]; the node does not flap between
    chains. *)
Theorem resolve_conflicts_settles peers self :
  let settled := snd (resolve_conflicts (peer_network peers) self) in
  resolve_conflicts (peer_network peers) settled = (false, settled).
Proof.
  cbv zeta. unfold resolve_conflicts.
  destruct (resolve_loop_greatest (peer_network peers) self (elements (nodes self))
              (Z.of_nat (length (chain self))) None)
    as [[Hr _] | (n & c & (node & Hin & Hg & Hv) & Hlt & Hr & Hall)].
  - assert (resolve_conflicts_in (elements (nodes self)) (peer_network peers) self
            = (false, self)) as H
      by (unfold resolve_conflicts_in; rewrite Hr; reflexivity).
    rewrite H. cbn [snd]. exact H.
  - rewrite (resolve_conflicts_in_adopts _ _ _ _ Hr Hv). cbn [snd].
    change (nodes (set_chain c self)) with (nodes self).
    destruct (peer_network_response _ _ _ _ _ Hg) as (peer & Hp & _ & Hn & Hc).
    destruct (resolve_loop_greatest (peer_network peers) (set_chain c self)
                (elements (nodes self))
                (Z.of_nat (length (chain (set_chain c self)))) None)
      as [[Hr' _] | (n2 & c2 & (node2 & Hin2 & Hg2 & Hv2) & Hlt2 & _ & _)].
    + unfold resolve_conflicts_in. rewrite Hr'. reflexivity.
    + exfalso. cbn [chain set_chain] in Hlt2.
      assert (n2 <= n); [|subst c; lia].
      apply (Hall n2 c2). exists node2. split; [exact Hin2|]. split; [exact Hg2|].
      apply (valid_chain_after_adoption self c c2 Hv Hv2).
Qed.

(** Property X4.  A chain pushed in a [RESPOND_CHAIN] message is treated
    as the same chain pulled from a single peer that reports its true
    length, so the push path never shortens the local chain either. *)
Theorem respond_chain_agrees_with_resolve get node received_chain self :
  let pushed := snd (process_p2p_message get (RESPOND_CHAIN received_chain) self) in
  let pulled :=
    snd (resolve_conflicts_in [node]
           (fun _ => Response 200 (Z.of_nat (length received_chain)) received_chain)
           self) in
  pushed = pulled /\ (length (chain self) <= length (chain pushed))%nat.
Proof.
  cbv zeta. unfold resolve_conflicts_in. rewrite resolve_loop_cons.
  cbn [process_p2p_message accepted resolve_loop].
  change (200 =? 200) with true. cbn [andb].
  destruct (Nat.ltb_spec (length (chain self)) (length received_chain)) as [Hlt|Hge].
  - replace (Z.of_nat (length received_chain) >? Z.of_nat (length (chain self)))
      with true by (symmetry; rewrite Z.gtb_ltb; apply Z.ltb_lt; lia).
    destruct (valid_chain self received_chain) as [[|]|] eqn:Hv; cbn [snd];
      try (split; [reflexivity | lia]).
    destruct received_chain as [|b c]; [discriminate|].
    cbn [snd chain set_chain]. split; [reflexivity | lia].
  - replace (Z.of_nat (length received_chain) >? Z.of_nat (length (chain self)))
      with false by (symmetry; rewrite Z.gtb_ltb; apply Z.ltb_ge; lia).
    cbn [snd]. split; [reflexivity | lia].
Qed.

(** ** What the node keeps true, whatever it is asked *)

Lemma valid_chain_from_ext self self2 lb rest :
  difficulty self = difficulty self2 ->
  valid_chain_from self lb rest = valid_chain_from self2 lb rest.
Proof.
  intros Hd. revert lb; induction rest as [|b rest IH]; intros lb; [reflexivity|].
  rewrite !valid_chain_from_cons. unfold block_ok, valid_proof. rewrite Hd.
  destruct (getitem b "index"); cbn; [|reflexivity].
  destruct (getitem b "previous_hash"); cbn; [|reflexivity].
  destruct (hash lb); cbn; [|reflexivity].
  destruct (getitem lb "index"); cbn; [|reflexivity].
  destruct (negb _); cbn; [reflexivity|].
  destruct (getitem lb "proof"); cbn; [|reflexivity].
  destruct (getitem b "proof"); cbn; [|reflexivity].
  destruct (String.eqb _ _); [apply IH | reflexivity].
Qed.





Lemma last_of_cons {A} (rest : list A) (first : A) :
  last (first :: rest) = Some (List.last rest first).
Proof.
  revert first; induction rest as [|y rest IH]; intros first; [reflexivity|].
  change (last (first :: y :: rest)) with (last (y :: rest)).
  rewrite IH, last_cons. reflexivity.
Qed.



Arguments sha256_hexdigest : simpl never.

Lemma getitem_returns_dict v k x : getitem v k = Return x -> exists d, v = JDict d.
Proof. destruct v; try discriminate. eauto. Qed.

Lemma mine_spec fuel now node_identifier p2p_node self r :
  mine fuel now node_identifier p2p_node self = Some r ->
  (exists e, served_result r = Raise e /\ served_sent r = [] /\
             chain (served_node r) = chain self /\
             difficulty (served_node r) = difficulty self /\
             nodes (served_node r) = nodes self) \/
  (exists lb lp i proof h,
     last_block self = Return lb /\ getitem lb "proof" = Return lp /\
     getitem lb "index" = Return i /\
     proof_of_work fuel self lp = Some proof /\ hash lb = Return h /\
     let block := forged now proof h self node_identifier in
     served_node r =
       set_chain (chain self ++ [block]) (set_current_transactions [] self) /\
     served_result r =
       Return (JDict [ ("message", JStr "New Block Forged");
                       ("index", JInt (Z.of_nat (length (chain self)) + 1));
                       ("transactions",
                        JList (current_transactions self ++ [reward node_identifier]));
                       ("proof", JInt proof);
                       ("previous_hash", JStr h) ], 200) /\
     served_sent r = route_broadcast "NEW_BLOCK" block p2p_node (served_node r)).
Proof.
  unfold mine.
  destruct (last_block self) as [lb|e] eqn:Hlb; cbn [mbind outcome_bind];
    [|intros [= <-]; left; exists e; repeat split; reflexivity].
  destruct (getitem lb "proof") as [lp|e] eqn:Hlp; cbn [mbind outcome_bind];
    [|intros [= <-]; left; exists e; repeat split; reflexivity].
  destruct (proof_of_work fuel self lp) as [proof|] eqn:Hpow; [|discriminate].
  unfold new_transaction.
  change (last_block (set_current_transactions _ self)) with (last_block self).
  rewrite Hlb. cbn [mbind outcome_bind].
  destruct (getitem lb "index") as [i|e] eqn:Hi; cbn [mbind outcome_bind];
    [|intros [= <-]; left; exists e; repeat split; reflexivity].
  destruct (add_one i) as [next|e]; cbn [mbind outcome_bind];
    [|intros [= <-]; left; exists e; repeat split; reflexivity].
  destruct (getitem_returns_dict _ _ _ Hlp) as [d ->].
  destruct (hash_dict_returns d) as [h Hh]. rewrite Hh.
  unfold new_block.
  change (last_block (set_current_transactions _ self)) with (last_block self).
  rewrite Hlb. cbn [mbind outcome_bind]. rewrite Hh. cbn [mbind outcome_bind mret outcome_ret].
  assert (Hcalc : (if truthy (JStr h) then Return (JStr h) else Return (JStr h))
                  = Return (JStr h)) by (destruct (truthy (JStr h)); reflexivity).
  rewrite Hcalc.
  cbn. intros [= <-]. right. exists (JDict d), lp, i, proof, h.
  repeat split; try assumption; reflexivity.
Qed.

Lemma route_new_transaction_keeps_chain values p2p_node self :
  chain (served_node (route_new_transaction values p2p_node self)) = chain self /\
  difficulty (served_node (route_new_transaction values p2p_node self)) = difficulty self /\
  nodes (served_node (route_new_transaction values p2p_node self)) = nodes self.
Proof.
  unfold route_new_transaction.
  destruct (all_in _ values) as [[|]|]; try (repeat split; reflexivity).
  destruct (_ ≫= _) as [[[sender recipient] amount]|]; try (repeat split; reflexivity).
  unfold new_transaction.
  destruct (_ ≫= _) as [index|]; repeat split; reflexivity.
Qed.

Lemma register_node_keeps_difficulty ok address self :
  difficulty (snd (register_node ok address self)) = difficulty self.
Proof.
  rewrite register_node_unfold.
  destruct (urlparse_netloc ok _) as [netloc|e]; [|reflexivity].
  destruct (negb _); reflexivity.
Qed.

Lemma register_each_keeps_chain ok addresses self :
  chain (snd (register_each ok addresses self)) = chain self /\
  difficulty (snd (register_each ok addresses self)) = difficulty self /\
  current_transactions (snd (register_each ok addresses self)) =
    current_transactions self.
Proof.
  revert self; induction addresses as [|a addresses IH]; intros self;
    [repeat split; reflexivity|].
  cbn [register_each].
  destruct a; try (repeat split; reflexivity).
  pose proof (register_node_keeps_chain_and_pending ok s self) as [Hc Hp].
  pose proof (register_node_keeps_difficulty ok s self) as Hd.
  destruct (register_node ok s self) as [[u|e] self1]; cbn [snd] in *.
  - destruct (IH self1) as (H1 & H2 & H3). repeat split; congruence.
  - repeat split; assumption.
Qed.

Lemma register_nodes_keeps_chain ok values self :
  chain (snd (register_nodes ok values self)) = chain self /\
  difficulty (snd (register_nodes ok values self)) = difficulty self /\
  current_transactions (snd (register_nodes ok values self)) =
    current_transactions self.
Proof.
  unfold register_nodes.
  destruct values; try (repeat split; reflexivity).
  destruct (dict_get "nodes" d) as [v|]; [|repeat split; reflexivity].
  assert (Hiter : forall addresses,
            let p := match register_each ok addresses self with
                     | (Raise e, self0) => (Raise e, self0)
                     | (Return _, self0) =>
                         (Return (JDict [ ("message", JStr "New nodes have been added");
                                          ("total_nodes",
                                           JList (map JStr (elements (nodes self0)))) ],
                                  201), self0)
                     end in
            chain (snd p) = chain self /\ difficulty (snd p) = difficulty self /\
            current_transactions (snd p) = current_transactions self).
  { intros addresses. cbv zeta.
    pose proof (register_each_keeps_chain ok addresses self) as H.
    destruct (register_each ok addresses self) as [[u|e] self1]; exact H. }
  destruct v; try (repeat split; reflexivity); cbn [py_iter]; apply Hiter.
Qed.






(** ** Mining *)



(** ** [valid_chain] against its description *)




(** ** [new_block] takes what it is given *)

Lemma genesis_mismatch_own self first l h :
  chain self = first :: l -> hash first = Return h ->
  genesis_mismatch self first = Return false.
Proof.
  intros Hc Hh. unfold genesis_mismatch. rewrite Hc, Hh. cbn.
  rewrite String.eqb_refl. reflexivity.
Qed.

(** Property X8.  [new_block] does not check the proof it is given: on a
    node whose chain is valid, called with a proof that does not solve the
    puzzle of the last block, it still returns a block and appends it, and
    the node's chain is from then on one that its own [valid_chain]
    rejects. *)
Theorem new_block_does_not_check now proof previous_hash self lb lp i :
  valid_chain self (chain self) = Return true ->
  last_block self = Return lb ->
  getitem lb "proof" = Return lp -> getitem lb "index" = Return i ->
  truthy previous_hash = false ->
  valid_proof self lp proof = false ->
  exists block,
    new_block now proof previous_hash self =
      (Return block,
       set_chain (chain self ++ [block]) (set_current_transactions [] self)) /\
    valid_chain (snd (new_block now proof previous_hash self))
      (chain self ++ [block]) = Return false.
Proof.
  intros Hv Hlb Hlp Hi Ht Hp.
  destruct (getitem_returns_dict _ _ _ Hlp) as [d ->].
  destruct (hash_dict_returns d) as [h Hh].
  unfold new_block. rewrite Ht, Hlb. cbn [mbind outcome_bind]. rewrite Hh.
  cbn [mbind outcome_bind mret outcome_ret].
  eexists. split; [reflexivity|]. cbn [snd].
  assert (Hne : exists first rest, chain self = first :: rest)
    by (destruct (chain self); [discriminate | eauto]).
  destruct Hne as (first & rest & Hc).
  assert (Hlast : JDict d = List.last rest first).
  { unfold last_block in Hlb. rewrite Hc, last_of_cons in Hlb. congruence. }
  rewrite Hc in Hv. apply valid_chain_cons_true in Hv as [Hg Hf].
  destruct (genesis_mismatch_false _ _ Hg) as [Hnil | (own & l & hf & Hown & Hfh & _)];
    [congruence|].
  rewrite Hc, <- app_comm_cons, valid_chain_cons.
  erewrite genesis_mismatch_own;
    [|cbn [chain set_chain set_current_transactions]; rewrite Hc; reflexivity
     |exact Hfh].
  cbn [mbind outcome_bind].
  rewrite (valid_chain_from_ext _ self) by reflexivity.
  rewrite valid_chain_from_app, Hf. cbn [mbind outcome_bind].
  rewrite valid_chain_from_cons, <- Hlast.
  rewrite (block_ok_intro self (JDict d) _
             (JInt (Z.of_nat (length (first :: rest)) + 1)) (JStr h) h i lp proof);
    try assumption; try reflexivity.
  rewrite Hp, andb_false_r. reflexivity.
Qed.

Lemma new_block_does_not_check_witness :
  exists block,
    new_block "1700000000.5" (JInt 7) JNull __init__ =
      (Return block,
       set_chain (chain __init__ ++ [block]) (set_current_transactions [] __init__)) /\
    valid_chain (snd (new_block "1700000000.5" (JInt 7) JNull __init__))
      (chain __init__ ++ [block]) = Return false.
Proof.
  apply (new_block_does_not_check "1700000000.5" (JInt 7) JNull __init__
           genesis_block (JInt 100) (JInt 1)); vm_compute; reflexivity.
Defined.

(** ** The digest does not depend on the order of the keys *)

Lemma compare_gt_lt (a b : string) : String.compare a b = Gt <-> String.compare b a = Lt.
Proof.
  rewrite (String.compare_antisym b a).
  destruct (String.compare a b); cbn; split; congruence.
Qed.

Lemma compare_lt_trans (a b c : string) :
  String.compare a b = Lt -> String.compare b c = Lt -> String.compare a c = Lt.
Proof.
  intros H1 H2.
  apply OrderedTypeEx.String_as_OT.cmp_lt.
  apply OrderedTypeEx.String_as_OT.cmp_lt in H1.
  apply OrderedTypeEx.String_as_OT.cmp_lt in H2.
  exact (OrderedTypeEx.String_as_OT.lt_trans _ _ _ H1 H2).
Qed.

Lemma insert_item_cons x y l :
  insert_item x (y :: l) =
    if behind (fst x) (fst y) then y :: insert_item x l else x :: y :: l.
Proof. cbn [insert_item]. unfold behind. destruct (String.compare _ _); reflexivity. Qed.

Lemma behind_total a b : a <> b -> behind a b = negb (behind b a).
Proof.
  intros Hne. unfold behind.
  destruct (String.compare a b) eqn:E.
  - apply String.compare_eq_iff in E. contradiction.
  - apply compare_gt_lt in E. rewrite E. reflexivity.
  - apply compare_gt_lt in E. rewrite E. reflexivity.
Qed.

Lemma behind_trans a b c : behind a b = true -> behind b c = true -> behind a c = true.
Proof.
  unfold behind. intros H1 H2.
  destruct (String.compare a b) eqn:E1; try discriminate.
  destruct (String.compare b c) eqn:E2; try discriminate.
  apply compare_gt_lt in E1, E2.
  assert (E3 := compare_lt_trans _ _ _ E2 E1). apply compare_gt_lt in E3.
  rewrite E3. reflexivity.
Qed.

Lemma behind_irrefl a : behind a a = false.
Proof.
  unfold behind. destruct (String.compare a a) eqn:E; try reflexivity.
  pose proof E as E'. apply compare_gt_lt in E'. congruence.
Qed.

(** Two items with different keys can be inserted in either order. *)
Lemma insert_item_comm x y l :
  fst x <> fst y ->
  insert_item x (insert_item y l) = insert_item y (insert_item x l).
Proof.
  intros Hne. induction l as [|z l IH].
  - cbn [insert_item]. fold (insert_item x [y]) (insert_item y [x]).
    change (insert_item x [y] = insert_item y [x]).
    rewrite !insert_item_cons. cbn [insert_item].
    rewrite (behind_total _ _ Hne). destruct (behind (fst y) (fst x)); reflexivity.
  - rewrite (insert_item_cons y z l), (insert_item_cons x z l).
    destruct (behind (fst y) (fst z)) eqn:Hyz, (behind (fst x) (fst z)) eqn:Hxz;
      rewrite !insert_item_cons, ?Hyz, ?Hxz.
    + rewrite IH. reflexivity.
    + assert (Hyx : behind (fst y) (fst x) = true).
      { destruct (string_dec (fst x) (fst z)) as [E|E]; [rewrite E; exact Hyz|].
        apply (behind_trans _ (fst z)); [exact Hyz|].
        rewrite (behind_total _ _ (not_eq_sym E)), Hxz. reflexivity. }
      rewrite Hyx, ?insert_item_cons, ?Hyz. reflexivity.
    + assert (Hxy : behind (fst x) (fst y) = true).
      { destruct (string_dec (fst y) (fst z)) as [E|E]; [rewrite E; exact Hxz|].
        apply (behind_trans _ (fst z)); [exact Hxz|].
        rewrite (behind_total _ _ (not_eq_sym E)), Hyz. reflexivity. }
      rewrite Hxy, ?insert_item_cons, ?Hxz. reflexivity.
    + rewrite (behind_total _ _ Hne).
      destruct (behind (fst y) (fst x)) eqn:Hyx; cbn [negb].
      * rewrite ?insert_item_cons, ?Hyz. reflexivity.
      * rewrite ?insert_item_cons, ?Hxz. reflexivity.
Qed.

Lemma sort_items_perm l1 l2 :
  l1 ≡ₚ l2 -> NoDup (map fst l1) -> sort_items l1 = sort_items l2.
Proof.
  unfold sort_items. induction 1 as [|x l1 l2 Hp IH|x y l|l1 l2 l3 Hp1 IH1 Hp2 IH2];
    intros Hnd.
  - reflexivity.
  - cbn [fold_right]. rewrite IH; [reflexivity|].
    cbn [map] in Hnd. apply NoDup_cons in Hnd as [_ Hnd]. exact Hnd.
  - cbn [fold_right]. apply insert_item_comm.
    cbn [map] in Hnd. apply NoDup_cons in Hnd as [Hin _].
    intros E. apply Hin. rewrite E. left.
  - rewrite IH1 by exact Hnd. apply IH2.
    rewrite <- Hp1. exact Hnd.
Qed.

(** Property X9.  The digest of a block does not depend on the order in
    which its keys were inserted: two dicts with the same entries, the
    keys being distinct as they are in a dict, have the same
    [json.dumps(..., sort_keys=True)] text and the same [hash]. *)
Theorem hash_ignores_key_order (d1 d2 : dict) :
  NoDup (map fst d1) -> d1 ≡ₚ d2 ->
  dumps (JDict d1) = dumps (JDict d2) /\ hash (JDict d1) = hash (JDict d2).
Proof.
  intros Hnd Hp.
  assert (H : dumps (JDict d1) = dumps (JDict d2)).
  { cbn [dumps]. do 4 f_equal.
    apply sort_items_perm.
    - apply Permutation_map, Hp.
    - rewrite map_map. erewrite map_ext; [exact Hnd|].
      intros [k x]. reflexivity. }
  split; [exact H|]. unfold hash. rewrite H. reflexivity.
Qed.

Lemma hash_ignores_key_order_witness :
  dumps (JDict [("proof", JInt 100); ("index", JInt 1)]) =
    dumps (JDict [("index", JInt 1); ("proof", JInt 100)]) /\
  hash (JDict [("proof", JInt 100); ("index", JInt 1)]) =
    hash (JDict [("index", JInt 1); ("proof", JInt 100)]).
Proof.
  apply (hash_ignores_key_order [("proof", JInt 100); ("index", JInt 1)]
           [("index", JInt 1); ("proof", JInt 100)]).
  - cbn [map fst]. apply NoDup_cons. split; [|apply NoDup_singleton].
    intros H. apply list_elem_of_singleton in H. discriminate.
  - apply perm_swap.
Defined.

(** ** The registry *)

(** Property X10.  [register_node] stores one entry for a peer however it
    is written: an address without a scheme and the same address behind
    [http://] give the same result, and registering the one after the
    other leaves the registry as the first call made it. *)
Theorem register_node_normalises ok address self :
  startswith address "http://" = false ->
  startswith address "https://" = false ->
  register_node ok ("http://" +:+ address) self = register_node ok address self /\
  snd (register_node ok ("http://" +:+ address) (snd (register_node ok address self))) =
    snd (register_node ok address self) /\
  snd (register_node ok address (snd (register_node ok ("http://" +:+ address) self))) =
    snd (register_node ok ("http://" +:+ address) self).
Proof.
  intros H1 H2.
  assert (E : forall s, register_node ok ("http://" +:+ address) s =
                        register_node ok address s)
    by (intros s; symmetry; apply register_node_bare_or_qualified; assumption).
  split; [apply E|]. rewrite !E. split; apply register_node_idempotent.
Qed.

Lemma register_node_normalises_witness :
  register_node (fun _ => true) ("http://" +:+ "192.168.0.5:5000") __init__ =
    register_node (fun _ => true) "192.168.0.5:5000" __init__ /\
  snd (register_node (fun _ => true) ("http://" +:+ "192.168.0.5:5000")
         (snd (register_node (fun _ => true) "192.168.0.5:5000" __init__))) =
    snd (register_node (fun _ => true) "192.168.0.5:5000" __init__) /\
  snd (register_node (fun _ => true) "192.168.0.5:5000"
         (snd (register_node (fun _ => true) ("http://" +:+ "192.168.0.5:5000") __init__))) =
    snd (register_node (fun _ => true) ("http://" +:+ "192.168.0.5:5000") __init__).
Proof.
  apply (register_node_normalises (fun _ => true) "192.168.0.5:5000" __init__);
    reflexivity.
Defined.

Lemma contains_splitnetloc c s :
  contains c (splitnetloc s) = true -> contains c s = true.
Proof.
  induction s as [|d s IH]; cbn [splitnetloc contains]; [discriminate|].
  destruct ((code d =? 47) || (code d =? 63) || (code d =? 35)); [discriminate|].
  cbn [contains]. destruct (Ascii.eqb c d); [reflexivity|]. exact IH.
Qed.

Lemma splitnetloc_no_delimiter c s :
  (code c =? 47) || (code c =? 63) || (code c =? 35) = true ->
  contains c (splitnetloc s) = false.
Proof.
  intros Hc. induction s as [|d s IH]; cbn [splitnetloc contains]; [reflexivity|].
  destruct ((code d =? 47) || (code d =? 63) || (code d =? 35)) eqn:Hd; [reflexivity|].
  cbn [contains]. rewrite IH, orb_false_r.
  destruct (Ascii.eqb_spec c d) as [->|]; [congruence | reflexivity].
Qed.

Lemma contains_remove_unsafe c s :
  contains c (remove_unsafe s) = true ->
  contains c s = true /\ (code c =? 9) || (code c =? 13) || (code c =? 10) = false.
Proof.
  induction s as [|d s IH]; cbn [remove_unsafe contains]; [discriminate|].
  destruct ((code d =? 9) || (code d =? 13) || (code d =? 10)) eqn:Hd.
  - intros H. destruct (IH H) as [H1 H2]. rewrite H1, orb_true_r. auto.
  - cbn [contains]. destruct (Ascii.eqb_spec c d) as [->|Hne]; cbn [orb].
    + auto.
    + exact IH.
Qed.

Lemma contains_split_colon c s a b :
  split_colon s = Some (a, b) -> contains c b = true -> contains c s = true.
Proof.
  revert a; induction s as [|d s IH]; intros a; cbn [split_colon]; [discriminate|].
  destruct (code d =? 58).
  - intros [= <- <-] H. cbn [contains]. rewrite H, orb_true_r. reflexivity.
  - destruct (split_colon s) as [[a' b']|]; [|discriminate].
    intros [= <- <-] H. cbn [contains]. rewrite (IH a' eq_refl H), orb_true_r.
    reflexivity.
Qed.

Lemma contains_strip_scheme c s :
  contains c (strip_scheme s) = true -> contains c s = true.
Proof.
  unfold strip_scheme. destruct s as [|d s]; [auto|].
  destruct (split_colon (String d s)) as [[[|e a] b]|] eqn:E; try auto.
  destruct (ascii_alpha d && all_chars scheme_char (String e a)); [|auto].
  apply (contains_split_colon c _ _ _ E).
Qed.

Lemma double_slash_cases (u : string) :
  (exists url', u = String "/" (String "/" url')) \/
  (forall (A : Type) (f : string -> A) (d : A),
     match u with
     | String "/" (String "/" url') => f url'
     | _ => d
     end = d).
Proof.
  destruct u as [|c1 u1]; [right; reflexivity|].
  destruct c1 as [[] [] [] [] [] [] [] []]; try (right; reflexivity).
  destruct u1 as [|c2 u2]; [right; reflexivity|].
  destruct c2 as [[] [] [] [] [] [] [] []]; try (right; reflexivity).
  left. eauto.
Qed.

Lemma urlparse_netloc_clean ok url netloc :
  urlparse_netloc ok url = Return netloc -> netloc <> "" -> clean netloc.
Proof.
  unfold urlparse_netloc. intros H Hne.
  destruct (double_slash_cases (strip_scheme (remove_unsafe (lstrip_c0 url))))
    as [[url' E] | E].
  2:{ rewrite E in H. injection H as <-. contradiction. }
  rewrite E in H.
  assert (Hn : netloc = splitnetloc url').
  { destruct (_ || _); [discriminate|]. destruct (_ && _); [discriminate|].
    congruence. }
  clear H. subst netloc. split; [exact Hne|].
  assert (Hunsafe : forall c, (code c =? 9) || (code c =? 13) || (code c =? 10) = true ->
                              contains c (splitnetloc url') = false).
  { intros c Hc. destruct (contains c (splitnetloc url')) eqn:Hin; [|reflexivity].
    apply contains_splitnetloc in Hin.
    assert (Hin2 : contains c (String "/" (String "/" url')) = true)
      by (cbn [contains]; rewrite Hin, !orb_true_r; reflexivity).
    rewrite <- E in Hin2. apply contains_strip_scheme in Hin2.
    apply contains_remove_unsafe in Hin2 as [_ Hin2]. congruence. }
  repeat constructor;
    first [apply splitnetloc_no_delimiter; reflexivity | apply Hunsafe; reflexivity].
Qed.

Lemma register_node_nodes ok address self :
  nodes (snd (register_node ok address self)) = nodes self \/
  exists netloc, clean netloc /\
    nodes (snd (register_node ok address self)) = {[ netloc ]} ∪ nodes self.
Proof.
  rewrite register_node_unfold.
  destruct (urlparse_netloc ok _) as [netloc|e] eqn:E; [|left; reflexivity].
  destruct (String.eqb_spec netloc "") as [->|Hne]; cbn [negb]; [left; reflexivity|].
  right. exists netloc. split; [|reflexivity].
  apply (urlparse_netloc_clean ok _ _ E Hne).
Qed.

Lemma registry_clean_register_node ok address self :
  registry_clean self -> registry_clean (snd (register_node ok address self)).
Proof.
  intros H a Ha.
  destruct (register_node_nodes ok address self) as [E | (netloc & Hc & E)];
    rewrite E in Ha; [apply H, Ha|].
  apply elem_of_union in Ha as [Ha|Ha]; [|apply H, Ha].
  apply elem_of_singleton in Ha. subst a. exact Hc.
Qed.

Lemma registry_clean_register_each ok addresses self :
  registry_clean self -> registry_clean (snd (register_each ok addresses self)).
Proof.
  revert self; induction addresses as [|a addresses IH]; intros self H; [exact H|].
  cbn [register_each]. destruct a; try exact H.
  pose proof (registry_clean_register_node ok s self H) as H1.
  destruct (register_node ok s self) as [[u|e] self1]; cbn [snd] in *.
  - apply IH, H1.
  - exact H1.
Qed.

Lemma registry_clean_register_nodes ok values self :
  registry_clean self -> registry_clean (snd (register_nodes ok values self)).
Proof.
  intros H. unfold register_nodes.
  destruct values; try exact H.
  destruct (dict_get "nodes" d) as [v|]; [|exact H].
  assert (Hiter : forall addresses,
            registry_clean
              (snd match register_each ok addresses self with
                   | (Raise e, self0) => (Raise e, self0)
                   | (Return _, self0) =>
                       (Return (JDict [ ("message", JStr "New nodes have been added");
                                        ("total_nodes",
                                         JList (map JStr (elements (nodes self0)))) ],
                                201), self0)
                   end)).
  { intros addresses.
    pose proof (registry_clean_register_each ok addresses self H) as H1.
    destruct (register_each ok addresses self) as [[u|e] self1]; exact H1. }
  destruct v; try exact H; cbn [py_iter]; apply Hiter.
Qed.

Lemma registry_clean_same_nodes self self' :
  nodes self' = nodes self -> registry_clean self -> registry_clean self'.
Proof. intros E H a Ha. rewrite E in Ha. apply H, Ha. Qed.

Lemma resolve_conflicts_in_keeps_nodes neighbours get self :
  nodes (snd (resolve_conflicts_in neighbours get self)) = nodes self.
Proof.
  unfold resolve_conflicts_in.
  destruct (resolve_loop _ _ _ _ _) as [[|b c]|]; reflexivity.
Qed.

Lemma registry_clean_step ok self self' :
  interface_step ok self self' -> registry_clean self -> registry_clean self'.
Proof.
  intros Hstep H. destruct Hstep as
    [fuel now node_identifier p2p_node self r Hm | values p2p_node self
    | values self | address self | get self | get msg self].
  - apply (registry_clean_same_nodes self); [|exact H].
    destruct (mine_spec _ _ _ _ _ _ Hm)
      as [(e & _ & _ & _ & _ & Hn) | (lb & lp & i & proof & h & _ & _ & _ & _ & _ & Hn & _)];
      [exact Hn | rewrite Hn; reflexivity].
  - apply (registry_clean_same_nodes self); [|exact H].
    apply route_new_transaction_keeps_chain.
  - apply registry_clean_register_nodes, H.
  - apply registry_clean_register_node, H.
  - apply (registry_clean_same_nodes self); [|exact H].
    unfold consensus, resolve_conflicts.
    pose proof (resolve_conflicts_in_keeps_nodes (elements (nodes self)) get self) as E.
    destruct (resolve_conflicts_in _ get self) as [[|] self1]; exact E.
  - apply (registry_clean_same_nodes self); [|exact H].
    destruct msg as [payload|payload| |received_chain|]; cbn [process_p2p_message];
      try reflexivity.
    + destruct (getitem payload "index"); cbn [snd]; [|reflexivity].
      apply resolve_conflicts_in_keeps_nodes.
    + destruct (_ <? _)%nat; [|reflexivity].
      destruct (valid_chain self received_chain) as [[|]|]; reflexivity.
Qed.

(** Property X11.  Whatever requests and peer messages a node has served,
    every address in its registry is a non-empty network location: it
    holds no [/], [?] or [#] and no tab or line break. *)
Theorem registry_holds_clean_addresses ok self a :
  reachable ok self -> a ∈ nodes self ->
  a <> "" /\ Forall (fun c => contains c a = false) forbidden.
Proof.
  intros Hreach. revert a.
  change (registry_clean self). revert self Hreach. unfold reachable.
  apply (rtc_ind_r (fun s => registry_clean s)).
  - intros a Ha. apply not_elem_of_empty in Ha. contradiction.
  - intros y z _ Hstep Hy. exact (registry_clean_step ok y z Hstep Hy).
Qed.

Lemma registry_holds_clean_addresses_witness :
  "192.168.0.5:5000" <> "" /\
  Forall (fun c => contains c "192.168.0.5:5000" = false) forbidden.
Proof.
  apply (registry_holds_clean_addresses (fun _ => true)
           (snd (register_node (fun _ => true) "http://192.168.0.5:5000/chain?x=1"
                   __init__))).
  - apply rtc_once. apply step_register_node.
  - apply elem_of_elements. vm_compute. left.
Defined.

Lemma register_node_grows ok address self :
  nodes self ⊆ nodes (snd (register_node ok address self)).
Proof.
  destruct (register_node_nodes ok address self) as [-> | (netloc & _ & ->)];
    set_solver.
Qed.

Lemma register_each_grows ok addresses self :
  nodes self ⊆ nodes (snd (register_each ok addresses self)).
Proof.
  revert self; induction addresses as [|a addresses IH]; intros self; [set_solver|].
  cbn [register_each]. destruct a; try set_solver.
  pose proof (register_node_grows ok s self) as H1.
  destruct (register_node ok s self) as [[u|e] self1]; cbn [snd] in *; [|exact H1].
  etrans; [exact H1 | apply IH].
Qed.

(** The loop over two lists in a row: the second list is looked at only
    when the first went through. *)
Lemma register_each_app ok l1 l2 self :
  register_each ok (l1 ++ l2) self =
    match register_each ok l1 self with
    | (Return _, self1) => register_each ok l2 self1
    | (Raise e, self1) => (Raise e, self1)
    end.
Proof.
  revert self; induction l1 as [|a l1 IH]; intros self; [reflexivity|].
  rewrite <- app_comm_cons. cbn [register_each].
  destruct a; try reflexivity.
  destruct (register_node ok s self) as [[u|e] self1]; [apply IH | reflexivity].
Qed.

Lemma register_each_refused ok bad rest self e :
  fst (register_each ok [bad] self) = Raise e ->
  register_each ok (bad :: rest) self = (Raise e, self).
Proof.
  cbn [register_each]. destruct bad; try (cbn; intros [= <-]; reflexivity).
  pose proof (register_node_raise_unchanged ok s self) as Hun.
  destruct (register_node ok s self) as [[u|e'] self1]; cbn [fst snd] in *;
    [discriminate|].
  intros [= <-]. rewrite (Hun e' eq_refl). reflexivity.
Qed.

(** Property X12.  [/nodes/register] is not all or nothing: when the list
    holds an address that [register_node] refuses, the exception escapes
    the route, the addresses before it stay registered, those after it are
    never looked at, and no peer registered before is lost. *)
Theorem register_nodes_stops_at_first_refusal ok d good bad rest self e :
  dict_get "nodes" d = Some (JList (good ++ bad :: rest)) ->
  fst (register_each ok good self) = Return tt ->
  fst (register_each ok [bad] (snd (register_each ok good self))) = Raise e ->
  register_nodes ok (JDict d) self = (Raise e, snd (register_each ok good self)) /\
  nodes self ⊆ nodes (snd (register_each ok good self)).
Proof.
  intros Hd Hgood Hbad. split; [|apply register_each_grows].
  unfold register_nodes. rewrite Hd. cbn [py_iter].
  rewrite register_each_app.
  destruct (register_each ok good self) as [[u|e'] self1]; cbn [fst snd] in *;
    [|discriminate].
  rewrite (register_each_refused ok bad rest self1 e Hbad). reflexivity.
Qed.

Lemma register_nodes_stops_at_first_refusal_witness :
  let d := [("nodes", JList [JStr "192.168.0.5:5000"; JStr ""; JStr "192.168.0.6:5000"])] in
  let self1 := snd (register_each (fun _ => true) [JStr "192.168.0.5:5000"] __init__) in
  register_nodes (fun _ => true) (JDict d) __init__ = (Raise ValueError, self1) /\
  nodes __init__ ⊆ nodes self1.
Proof.
  apply (register_nodes_stops_at_first_refusal (fun _ => true)
           [("nodes", JList [JStr "192.168.0.5:5000"; JStr ""; JStr "192.168.0.6:5000"])]
           [JStr "192.168.0.5:5000"] (JStr "") [JStr "192.168.0.6:5000"]
           __init__ ValueError); reflexivity.
Defined.

(** ** [POST /transactions/new] *)

Lemma all_in_dict (d : dict) :
  all_in ["sender"; "recipient"; "amount"] (JDict d) =
    Return (match dict_get "sender" d, dict_get "recipient" d, dict_get "amount" d with
            | Some _, Some _, Some _ => true
            | _, _, _ => false
            end).
Proof.
  cbn. destruct (dict_get "sender" d); [|reflexivity].
  destruct (dict_get "recipient" d); [|reflexivity].
  destruct (dict_get "amount" d); reflexivity.
Qed.


(** ** Broadcast *)

Lemma code_colon (d : ascii) : (code d =? 58) = Ascii.eqb ":" d.
Proof. destruct d as [[] [] [] [] [] [] [] []]; reflexivity. Qed.

Lemma split_colon_Some s a b :
  split_colon s = Some (a, b) <-> s = a +:+ ":" +:+ b /\ contains ":" a = false.
Proof.
  revert a; induction s as [|d s IH]; intros a; cbn [split_colon].
  - split; [discriminate|]. intros [H _]. destruct a; discriminate.
  - rewrite code_colon. destruct (Ascii.eqb_spec ":" d) as [<-|Hne].
    + split.
      * intros [= <- <-]. split; reflexivity.
      * intros [H Ha]. destruct a as [|c a].
        -- cbn in H. injection H as ->. reflexivity.
        -- cbn in H. injection H as <- _. cbn in Ha. discriminate.
    + split.
      * destruct (split_colon s) as [[a' b']|] eqn:E; [|discriminate].
        intros [= <- <-]. destruct (proj1 (IH a') eq_refl) as [-> Ha].
        split; [reflexivity|]. cbn [contains].
        apply Ascii.eqb_neq in Hne. rewrite Hne, Ha. reflexivity.
      * intros [H Ha]. destruct a as [|c a].
        -- cbn in H. injection H as Hd _. congruence.
        -- cbn in H. injection H as <- ->. cbn [contains] in Ha.
           apply orb_false_iff in Ha as [_ Ha].
           rewrite (proj2 (IH a) (conj eq_refl Ha)). reflexivity.
Qed.

Lemma split_host_port_Some address host port :
  split_host_port address = Some (host, port) <->
  address = host +:+ ":" +:+ port /\
  contains ":" host = false /\ contains ":" port = false.
Proof.
  unfold split_host_port. split.
  - destruct (split_colon address) as [[a b]|] eqn:E; [|discriminate].
    destruct (contains ":" b) eqn:Hb; [discriminate|]. intros [= <- <-].
    apply split_colon_Some in E as [-> Ha]. auto.
  - intros (-> & Ha & Hb).
    rewrite (proj2 (split_colon_Some _ host port) (conj eq_refl Ha)), Hb.
    reflexivity.
Qed.

(** The calls the loop makes. *)
Lemma broadcast_loop_spec message exclude addresses host port m :
  (host, port, m) ∈ broadcast_loop message exclude addresses <->
  m = message /\ exclude <> Some port /\
  exists address port_text http_port,
    address ∈ addresses /\ split_host_port address = Some (host, port_text) /\
    py_int port_text = Some http_port /\ port = http_port + 1000.
Proof.
  induction addresses as [|a addresses IH]; cbn [broadcast_loop].
  - split; [intros H; apply elem_of_nil in H; contradiction|].
    intros (_ & _ & address & _ & _ & H & _). apply elem_of_nil in H. contradiction.
  - assert (Hskip :
      (forall port_text http_port,
         split_host_port a = Some (host, port_text) ->
         py_int port_text = Some http_port -> port = http_port + 1000 ->
         exclude = Some port) ->
      ((host, port, m) ∈ broadcast_loop message exclude addresses <->
       m = message /\ exclude <> Some port /\
       exists address port_text http_port,
         address ∈ a :: addresses /\ split_host_port address = Some (host, port_text) /\
         py_int port_text = Some http_port /\ port = http_port + 1000)).
    { intros Hno. rewrite IH. split.
      - intros (H1 & H2 & address & pt & hp & Hin & H). split; [exact H1|].
        split; [exact H2|]. exists address, pt, hp. split; [right; exact Hin | exact H].
      - intros (H1 & H2 & address & pt & hp & Hin & Hs & Hp & Hport).
        split; [exact H1|]. split; [exact H2|].
        apply elem_of_cons in Hin as [->|Hin].
        + exfalso. apply H2. apply (Hno pt hp); assumption.
        + exists address, pt, hp. auto. }
    destruct (split_host_port a) as [[h pt]|] eqn:Hs;
      [|apply Hskip; intros ? ? [=]].
    destruct (py_int pt) as [hp|] eqn:Hp;
      [|apply Hskip; intros ? ? [= <- <-]; congruence].
    destruct exclude as [e|].
    + destruct (Z.eqb_spec (hp + 1000) e) as [He|He].
      * apply Hskip. intros ? ? [= <- <-] Hp2 ->.
        rewrite Hp in Hp2. injection Hp2 as <-. congruence.
      * rewrite elem_of_cons, IH. split.
        -- intros [[= -> -> ->] | (H1 & H2 & address & pt' & hp' & Hin & H)].
           ++ split; [reflexivity|]. split; [congruence|].
              exists a, pt, hp. split; [left|]. auto.
           ++ split; [exact H1|]. split; [exact H2|].
              exists address, pt', hp'. split; [right; exact Hin | exact H].
        -- intros (H1 & H2 & address & pt' & hp' & Hin & Hs' & Hp' & Hport).
           apply elem_of_cons in Hin as [->|Hin].
           ++ left. rewrite Hs in Hs'. injection Hs' as <- <-.
              rewrite Hp in Hp'. injection Hp' as <-. congruence.
           ++ right. split; [exact H1|]. split; [exact H2|].
              exists address, pt', hp'. auto.
    + rewrite elem_of_cons, IH. split.
      * intros [[= -> -> ->] | (H1 & H2 & address & pt' & hp' & Hin & H)].
        -- split; [reflexivity|]. split; [discriminate|].
           exists a, pt, hp. split; [left|]. auto.
        -- split; [exact H1|]. split; [exact H2|].
           exists address, pt', hp'. split; [right; exact Hin | exact H].
      * intros (H1 & H2 & address & pt' & hp' & Hin & Hs' & Hp' & Hport).
        apply elem_of_cons in Hin as [->|Hin].
        -- left. rewrite Hs in Hs'. injection Hs' as <- <-.
           rewrite Hp in Hp'. injection Hp' as <-. congruence.
        -- right. split; [exact H1|]. split; [exact H2|].
           exists address, pt', hp'. auto.
Qed.

(** Property X14.  Whom [broadcast_message] sends to: a call
    [send_message(host, port, m)] is made exactly when [m] is the message
    to broadcast, [port] is not the excluded port, and the registry holds
    an address [host:text] with no further colon whose [text] is read by
    [int] as a number that is [port] minus 1000.  Addresses of any other
    shape are skipped. *)
Theorem broadcast_message_targets message exclude self host port m :
  (host, port, m) ∈ broadcast_message message exclude self <->
  m = message /\ exclude <> Some port /\
  exists port_text http_port,
    host +:+ ":" +:+ port_text ∈ nodes self /\
    contains ":" host = false /\ contains ":" port_text = false /\
    py_int port_text = Some http_port /\ port = http_port + 1000.
Proof.
  unfold broadcast_message. rewrite broadcast_loop_spec. split.
  - intros (H1 & H2 & address & pt & hp & Hin & Hs & Hp & Hport).
    apply split_host_port_Some in Hs as (-> & Hh & Hpt).
    apply elem_of_elements in Hin.
    split; [exact H1|]. split; [exact H2|]. exists pt, hp. auto.
  - intros (H1 & H2 & pt & hp & Hin & Hh & Hpt & Hp & Hport).
    split; [exact H1|]. split; [exact H2|].
    exists (host +:+ ":" +:+ pt), pt, hp.
    split; [apply elem_of_elements; exact Hin|].
    split; [apply split_host_port_Some; auto | auto].
Qed.






(** ** The search of [proof_of_work] *)

Lemma proof_of_work_from_more_fuel self last_proof (fuel k : nat) start p :
  proof_of_work_from fuel self last_proof start = Some p ->
  proof_of_work_from (fuel + k) self last_proof start = Some p.
Proof.
  revert start; induction fuel as [|fuel IH]; intros start; [discriminate|].
  cbn [proof_of_work_from Nat.add].
  destruct (negb (valid_proof self last_proof (JInt start))); [apply IH | auto].
Qed.

(** Property X16.  The search of [proof_of_work] ends whenever the puzzle
    has a solution: if some [q >= 0] solves the puzzle of [last_proof],
    the loop returns the least solution [p <= q], and it returns this same
    value for every bound on the number of iterations above [q]. *)
Theorem proof_of_work_ends self last_proof q :
  0 <= q -> valid_proof self last_proof (JInt q) = true ->
  exists p,
    0 <= p <= q /\
    valid_proof self last_proof (JInt p) = true /\
    (forall p', 0 <= p' < p -> valid_proof self last_proof (JInt p') = false) /\
    forall fuel : nat, (Z.to_nat q < fuel)%nat ->
                       proof_of_work fuel self last_proof = Some p.
Proof.
  intros Hq Hv.
  destruct (proof_of_work_from_finds self last_proof (Z.to_nat q) 0) as [p Hp].
  { rewrite Z2Nat.id by lia. exact Hv. }
  destruct (proof_of_work_from_least _ _ _ _ _ Hp) as (Hle & Hvp & Hmin).
  exists p. split.
  { split; [exact Hle|]. destruct (Z_le_gt_dec p q) as [|Hgt]; [assumption|].
    rewrite Hmin in Hv by lia. discriminate. }
  split; [exact Hvp|]. split; [exact Hmin|].
  intros fuel Hfuel. unfold proof_of_work.
  replace fuel with (S (Z.to_nat q) + (fuel - S (Z.to_nat q)))%nat by lia.
  apply proof_of_work_from_more_fuel, Hp.
Qed.

Lemma proof_of_work_ends_witness :
  exists p,
    0 <= p <= 4 /\
    valid_proof __init__ (JInt 8848) (JInt p) = true /\
    (forall p', 0 <= p' < p -> valid_proof __init__ (JInt 8848) (JInt p') = false) /\
    forall fuel : nat, (Z.to_nat 4 < fuel)%nat ->
                       proof_of_work fuel __init__ (JInt 8848) = Some p.
Proof.
  apply (proof_of_work_ends __init__ (JInt 8848) 4); [lia|].
  vm_compute. reflexivity.
Defined.

(** ** From a recorded transaction to the block that holds it *)

Lemma route_new_transaction_node d p2p_node self sender recipient amount :
  dict_get "sender" d = Some sender ->
  dict_get "recipient" d = Some recipient ->
  dict_get "amount" d = Some amount ->
  served_node (route_new_transaction (JDict d) p2p_node self) =
    set_current_transactions
      (current_transactions self ++ [transaction sender recipient amount]) self.
Proof.
  intros Hs Hr Ha. unfold route_new_transaction.
  rewrite all_in_dict, Hs, Hr, Ha. cbn [getitem]. rewrite Hs, Hr, Ha.
  cbn [mbind outcome_bind mret outcome_ret]. unfold new_transaction.
  destruct (_ ≫= _) as [index|e]; reflexivity.
Qed.

Lemma mine_block_transactions fuel now node_identifier p2p_node self r reply :
  mine fuel now node_identifier p2p_node self = Some r ->
  served_result r = Return reply ->
  exists block,
    chain (served_node r) = (chain self ++ [block])%list /\
    getitem block "transactions" =
      Return (JList (current_transactions self ++ [reward node_identifier])) /\
    getitem (fst reply) "transactions" = getitem block "transactions" /\
    current_transactions (served_node r) = [].
Proof.
  intros Hm Hr. destruct (mine_spec _ _ _ _ _ _ Hm)
    as [(e & He & _)
       | (lb & lp & i & proof & h & _ & _ & _ & _ & _ & Hn & Hres & _)];
    [congruence|].
  cbv zeta in Hn. rewrite Hres in Hr. injection Hr as <-.
  exists (forged now proof h self node_identifier). rewrite Hn.
  repeat split; reflexivity.
Qed.

(** Property X17.  A transaction posted to [/transactions/new] with its
    three fields is in the next block [/mine] forges: when [/mine] answers,
    the block appended holds the transactions pending before the post,
    then the posted one, then the reward, and the pending buffer is empty
    afterwards. *)
Theorem posted_transaction_is_mined d p2p_node fuel now node_identifier self
    sender recipient amount r reply :
  dict_get "sender" d = Some sender ->
  dict_get "recipient" d = Some recipient ->
  dict_get "amount" d = Some amount ->
  mine fuel now node_identifier p2p_node
    (served_node (route_new_transaction (JDict d) p2p_node self)) = Some r ->
  served_result r = Return reply ->
  exists block,
    chain (served_node r) = (chain self ++ [block])%list /\
    getitem block "transactions" =
      Return (JList (current_transactions self ++
                     [transaction sender recipient amount; reward node_identifier])) /\
    current_transactions (served_node r) = [].
Proof.
  intros Hs Hr Ha Hm Hres.
  rewrite (route_new_transaction_node d p2p_node self _ _ _ Hs Hr Ha) in Hm.
  destruct (mine_block_transactions _ _ _ _ _ _ _ Hm Hres)
    as (block & Hc & Ht & _ & Hcur).
  exists block. cbn [chain current_transactions set_current_transactions] in Hc, Ht.
  rewrite <- app_assoc in Ht. auto.
Qed.

Lemma posted_transaction_is_mined_witness :
  exists block,
    chain (served_node
             (default (failed KeyError mined)
                (mine 5 "1700000000.5" "alice" None
                   (served_node
                      (route_new_transaction
                         (JDict [("sender", JStr "a"); ("recipient", JStr "b");
                                 ("amount", JInt 5); ("memo", JStr "x")])
                         None
                         (set_chain [JDict [("index", JInt 1); ("proof", JInt 8848)]]
                            __init__)))))) =
      (chain (set_chain [JDict [("index", JInt 1); ("proof", JInt 8848)]] __init__)
         ++ [block])%list /\
    getitem block "transactions" =
      Return (JList (current_transactions
                       (set_chain [JDict [("index", JInt 1); ("proof", JInt 8848)]]
                          __init__) ++
                     [transaction (JStr "a") (JStr "b") (JInt 5); reward "alice"])) /\
    current_transactions
      (served_node
         (default (failed KeyError mined)
            (mine 5 "1700000000.5" "alice" None
               (served_node
                  (route_new_transaction
                     (JDict [("sender", JStr "a"); ("recipient", JStr "b");
                             ("amount", JInt 5); ("memo", JStr "x")])
                     None
                     (set_chain [JDict [("index", JInt 1); ("proof", JInt 8848)]]
                        __init__)))))) = [].
Proof.
  eapply (posted_transaction_is_mined
            [("sender", JStr "a"); ("recipient", JStr "b"); ("amount", JInt 5);
             ("memo", JStr "x")]
            None 5%nat "1700000000.5" "alice"
            (set_chain [JDict [("index", JInt 1); ("proof", JInt 8848)]] __init__)
            (JStr "a") (JStr "b") (JInt 5)).
  - reflexivity.
  - reflexivity.
  - reflexivity.
  - vm_compute. reflexivity.
  - vm_compute. reflexivity.
Defined.



(** ** [GET /mine] answers *)

(** Property X19.  [/mine] returns whenever the puzzle of the last block's
    proof has a solution: if the chain has a last block with a proof and
    some [q >= 0] solves its puzzle, the route ends with one and the same
    result for every bound on the iterations of the search above [q]. *)
Theorem mine_answers now node_identifier p2p_node self lb lp q :
  last_block self = Return lb -> getitem lb "proof" = Return lp ->
  0 <= q -> valid_proof self lp (JInt q) = true ->
  exists r,
    forall fuel : nat, (Z.to_nat q < fuel)%nat ->
                       mine fuel now node_identifier p2p_node self = Some r.
Proof.
  intros Hlb Hlp Hq Hv.
  destruct (proof_of_work_from_finds self lp (Z.to_nat q) 0) as [p Hp].
  { rewrite Z2Nat.id by lia. exact Hv. }
  assert (Hpow : forall fuel : nat, (Z.to_nat q < fuel)%nat ->
                                    proof_of_work fuel self lp = Some p).
  { intros fuel Hfuel. unfold proof_of_work.
    replace fuel with (S (Z.to_nat q) + (fuel - S (Z.to_nat q)))%nat by lia.
    apply proof_of_work_from_more_fuel, Hp. }
  destruct (mine (S (Z.to_nat q)) now node_identifier p2p_node self) as [r|] eqn:Hm.
  - exists r. intros fuel Hfuel. revert Hm. unfold mine.
    rewrite Hlb. cbn [mbind outcome_bind]. rewrite Hlp. cbn [mbind outcome_bind].
    rewrite (Hpow fuel Hfuel), (Hpow (S (Z.to_nat q))) by lia. auto.
  - exfalso. revert Hm. unfold mine.
    rewrite Hlb. cbn [mbind outcome_bind]. rewrite Hlp. cbn [mbind outcome_bind].
    rewrite (Hpow (S (Z.to_nat q))) by lia.
    destruct (new_transaction _ _ _ _) as [r0 s0].
    destruct (_ ≫= _); [|discriminate].
    destruct (new_block _ _ _ _) as [r1 s1].
    destruct (_ ≫= _) as [[? ?]|]; discriminate.
Qed.

Lemma mine_answers_witness :
  exists r,
    forall fuel : nat,
      (Z.to_nat 4 < fuel)%nat ->
      mine fuel "1700000000.5" "alice" None
        (set_chain [JDict [("index", JInt 1); ("proof", JInt 8848)]] __init__) = Some r.
Proof.
  apply (mine_answers "1700000000.5" "alice" None
           (set_chain [JDict [("index", JInt 1); ("proof", JInt 8848)]] __init__)
           (JDict [("index", JInt 1); ("proof", JInt 8848)]) (JInt 8848) 4).
  - reflexivity.
  - reflexivity.
  - lia.
  - vm_compute. reflexivity.
Defined.

(** ** What no request undoes *)

Lemma new_block_cases now proof previous_hash self :
  (exists e, new_block now proof previous_hash self = (Raise e, self)) \/
  (exists h,
     new_block now proof previous_hash self =
       (Return (JDict [ ("index", JInt (Z.of_nat (length (chain self)) + 1));
                        ("timestamp", JFloat now);
                        ("transactions", JList (current_transactions self));
                        ("proof", proof);
                        ("previous_hash", h) ]),
        set_chain (chain self ++ [JDict [ ("index", JInt (Z.of_nat (length (chain self)) + 1));
                        ("timestamp", JFloat now);
                        ("transactions", JList (current_transactions self));
                        ("proof", proof);
                        ("previous_hash", h) ]]) (set_current_transactions [] self))).
Proof.
  unfold new_block.
  destruct (if truthy previous_hash then _ else _) as [ph|e];
    [right; exists ph | left; exists e]; reflexivity.
Qed.

Lemma mine_pending fuel now node_identifier p2p_node self r :
  mine fuel now node_identifier p2p_node self = Some r ->
  (exists extra,
     current_transactions (served_node r) = (current_transactions self ++ extra)%list) \/
  (exists block,
     chain (served_node r) = (chain self ++ [block])%list /\
     getitem block "transactions" =
       Return (JList (current_transactions self ++ [reward node_identifier])) /\
     current_transactions (served_node r) = []).
Proof.
  intros Hm. destruct (served_result r) as [reply|e] eqn:Hres.
  { right. destruct (mine_block_transactions _ _ _ _ _ _ _ Hm Hres)
      as (block & Hc & Ht & _ & Hcur). eauto. }
  left. revert Hm Hres. unfold mine.
  destruct (_ ≫= _) as [[lb lp]|e0];
    [|intros [= <-] _; exists []; rewrite app_nil_r; reflexivity].
  destruct (proof_of_work fuel self lp) as [proof|]; [|discriminate].
  destruct (new_transaction _ _ _ self) as [r0 self0] eqn:Hnt.
  assert (Hself0 : self0 =
            set_current_transactions
              (current_transactions self ++ [reward node_identifier]) self)
    by (unfold new_transaction in Hnt; injection Hnt as _ <-; reflexivity).
  destruct (r0 ≫= _) as [h|e1];
    [|intros [= <-] _; exists [reward node_identifier]; rewrite Hself0; reflexivity].
  destruct (new_block_cases now (JInt proof) (JStr h) self0) as [[e2 ->] | [ph ->]].
  - cbn [mbind outcome_bind]. intros [= <-] _.
    exists [reward node_identifier]. rewrite Hself0. reflexivity.
  - cbn [mbind outcome_bind mret outcome_ret getitem dict_get String.eqb Ascii.eqb
           Bool.eqb].
    intros [= <-]. discriminate.
Qed.

(** Property X20.  No request or peer message drops a pending transaction:
    after any one of them, either the pending buffer is the former one,
    possibly with more transactions behind it, or a block has been
    appended that holds all the former pending transactions in their
    order, followed by a reward, and the buffer is empty. *)
Theorem pending_transactions_survive ok self self' :
  interface_step ok self self' ->
  (exists extra,
     current_transactions self' = (current_transactions self ++ extra)%list) \/
  (exists block recipient,
     chain self' = (chain self ++ [block])%list /\
     getitem block "transactions" =
       Return (JList (current_transactions self ++ [reward recipient])) /\
     current_transactions self' = []).
Proof.
  intros Hstep. destruct Hstep as
    [fuel now node_identifier p2p_node self r Hm | values p2p_node self
    | values self | address self | get self | get msg self].
  - destruct (mine_pending _ _ _ _ _ _ Hm) as [H | (block & H)];
      [left; exact H | right; exists block, node_identifier; exact H].
  - left. unfold route_new_transaction.
    destruct (all_in _ values) as [[|]|];
      try (exists []; rewrite app_nil_r; reflexivity).
    destruct (_ ≫= _) as [[[sender recipient] amount]|];
      [|exists []; rewrite app_nil_r; reflexivity].
    unfold new_transaction.
    destruct (_ ≫= _) as [index|]; eexists; reflexivity.
  - left. exists []. rewrite app_nil_r.
    apply (register_nodes_keeps_chain ok values self).
  - left. exists []. rewrite app_nil_r.
    apply (register_node_keeps_chain_and_pending ok address self).
  - left. exists []. rewrite app_nil_r. unfold consensus, resolve_conflicts.
    pose proof (resolve_conflicts_in_keeps_pending (elements (nodes self)) get self) as E.
    destruct (resolve_conflicts_in _ get self) as [[|] self1]; exact E.
  - left. apply process_p2p_message_keeps_pending.
Qed.

Lemma pending_transactions_survive_witness :
  (exists extra,
     current_transactions
       (served_node (route_new_transaction
                       (JDict [("sender", JStr "a"); ("recipient", JStr "b");
                               ("amount", JInt 5)]) None mined)) =
       (current_transactions mined ++ extra)%list) \/
  (exists block recipient,
     chain (served_node (route_new_transaction
                           (JDict [("sender", JStr "a"); ("recipient", JStr "b");
                                   ("amount", JInt 5)]) None mined)) =
       (chain mined ++ [block])%list /\
     getitem block "transactions" =
       Return (JList (current_transactions mined ++ [reward recipient])) /\
     current_transactions
       (served_node (route_new_transaction
                       (JDict [("sender", JStr "a"); ("recipient", JStr "b");
                               ("amount", JInt 5)]) None mined)) = []).
Proof.
  apply (pending_transactions_survive (fun _ => true) mined).
  apply step_new_transaction.
Defined.

(** ** The registry only grows *)

Lemma register_nodes_grows ok values self :
  nodes self ⊆ nodes (snd (register_nodes ok values self)).
Proof.
  unfold register_nodes.
  destruct values; try reflexivity.
  destruct (dict_get "nodes" d) as [v|]; [|reflexivity].
  assert (Hiter : forall addresses,
            nodes self ⊆
            nodes (snd (match register_each ok addresses self with
                        | (Raise e, self0) => (Raise e, self0)
                        | (Return _, self0) =>
                            (Return (JDict [ ("message", JStr "New nodes have been added");
                                             ("total_nodes",
                                              JList (map JStr (elements (nodes self0)))) ],
                                     201), self0)
                        end))).
  { intros addresses.
    pose proof (register_each_grows ok addresses self) as H.
    destruct (register_each ok addresses self) as [[u|e] self1]; exact H. }
  destruct v; try reflexivity; cbn [py_iter]; try apply Hiter.
Qed.

Lemma interface_step_grows ok self self' :
  interface_step ok self self' -> nodes self ⊆ nodes self'.
Proof.
  intros Hstep. destruct Hstep as
    [fuel now node_identifier p2p_node self r Hm | values p2p_node self
    | values self | address self | get self | get msg self].
  - destruct (mine_spec _ _ _ _ _ _ Hm)
      as [(e & _ & _ & _ & _ & Hn) | (lb & lp & i & proof & h & _ & _ & _ & _ & _ & Hn & _)];
      [rewrite Hn | cbv zeta in Hn; rewrite Hn]; reflexivity.
  - destruct (route_new_transaction_keeps_chain values p2p_node self) as (_ & _ & ->).
    reflexivity.
  - apply register_nodes_grows.
  - apply register_node_grows.
  - unfold consensus, resolve_conflicts.
    pose proof (resolve_conflicts_in_keeps_nodes (elements (nodes self)) get self) as E.
    destruct (resolve_conflicts_in _ get self) as [[|] self1]; cbn [snd] in *;
      rewrite E; reflexivity.
  - destruct msg as [payload|payload| |received_chain|]; cbn [process_p2p_message];
      try reflexivity.
    + destruct (getitem payload "index"); cbn [snd]; [|reflexivity].
      unfold resolve_conflicts.
      rewrite resolve_conflicts_in_keeps_nodes. reflexivity.
    + destruct (_ <? _)%nat; [|reflexivity].
      destruct (valid_chain self received_chain) as [[|]|]; reflexivity.
Qed.

(** Property X21.  The registry only grows: no sequence of requests and
    peer messages removes a peer once registered. *)
Theorem registry_never_shrinks ok self self' :
  rtc (interface_step ok) self self' -> nodes self ⊆ nodes self'.
Proof.
  induction 1 as [self | self mid self' Hstep _ IH]; [reflexivity|].
  etrans; [apply (interface_step_grows ok _ _ Hstep) | exact IH].
Qed.

Lemma registry_never_shrinks_witness :
  nodes (snd (register_node (fun _ => true) "192.168.0.5:5000" __init__)) ⊆
  nodes (snd (register_node (fun _ => true) "192.168.0.6:5000"
                (served_node
                   (route_new_transaction JNull None
                      (snd (register_node (fun _ => true) "192.168.0.5:5000"
                              __init__)))))).
Proof.
  apply (registry_never_shrinks (fun _ => true)).
  eapply rtc_l; [apply step_new_transaction|].
  apply rtc_once, step_register_node.
Defined.
